(** * semantic-version: a verification development for [src/semantic-version.ts]

    The TypeScript module is embedded shallowly: JavaScript values are an
    inductive type, the zod schemas are parsing functions over those values,
    the [SemanticVersion] class is a record with its constructor and methods
    as functions, and the one piece of process-wide state (the static default
    compliance settings) is passed explicitly.  A constructor or method that
    throws returns [Throw]. *)

From Stdlib Require Import Bool Ascii String List ZArith Lia.
From Stdlib Require Import DecimalString.
Import ListNotations.

Set Warnings "-register-all".

Local Open Scope string_scope.
Local Open Scope Z_scope.

(* ================================================================= *)
(** ** JavaScript strings *)

(** Strings are sequences of code units; the model keeps the code units
    below 256, which covers every character the grammar mentions. *)
Module JsString.

(** White space and line terminators removed by [String.prototype.trim]
    (TAB, LF, VT, FF, CR, SP, NBSP). *)
Definition is_white_space (c : ascii) : bool :=
  let n := nat_of_ascii c in
  (Nat.leb 9 n && Nat.leb n 13) || Nat.eqb n 32 || Nat.eqb n 160.

Fixpoint trim_start (s : string) : string :=
  match s with
  | String c s' => if is_white_space c then trim_start s' else s
  | EmptyString => EmptyString
  end.

Fixpoint rev_acc (s acc : string) : string :=
  match s with
  | String c s' => rev_acc s' (String c acc)
  | EmptyString => acc
  end.

Definition rev (s : string) : string := rev_acc s EmptyString.

Definition trim (s : string) : string :=
  rev (trim_start (rev (trim_start s))).

(** [s.split(sep)] for a one-character separator: the pieces between the
    separators, so the empty string splits into one empty piece. *)
Fixpoint split (sep : ascii) (s : string) : list string :=
  match s with
  | EmptyString => [EmptyString]
  | String c s' =>
      if Ascii.eqb c sep then EmptyString :: split sep s'
      else match split sep s' with
           | p :: ps => String c p :: ps
           | [] => [String c EmptyString]
           end
  end.

(** [xs.join(sep)]. *)
Definition join (sep : string) (xs : list string) : string :=
  String.concat sep xs.

(** Decimal rendering of an integral number, as template literals and
    [Number.prototype.toString] give it below 1e21. *)
Definition of_Z (z : Z) : string :=
  NilZero.string_of_int (Z.to_int z).

End JsString.

(* ================================================================= *)
(** ** Regular expressions *)

(** The fragment of the regular-expression language the module's literals
    use, with a backtracking matcher in continuation-passing style.  Every
    literal of the source carries the flags [g] and [i]. *)
Module RegExp.

Inductive regex : Type :=
| Eps                                      (* empty pattern *)
| Class (ranges : list (ascii * ascii))  (* [a-z0-9], a single char, \d *)
| Seq (r1 r2 : regex)
| Alt (r1 r2 : regex)                      (* r1|r2 *)
| Star (r : regex)                         (* r*, greedy *)
| Bol                                      (* ^ *)
| Eol                                      (* $ *)
| Named (name : string) (r : regex).       (* (?<name>r) *)

Definition Opt (r : regex) : regex := Alt r Eps.          (* r? *)
Definition Plus (r : regex) : regex := Seq r (Star r).    (* r+ *)
Definition Chr (c : ascii) : regex := Class [(c, c)].

Fixpoint Lit (s : string) : regex :=
  match s with
  | EmptyString => Eps
  | String c EmptyString => Chr c
  | String c s' => Seq (Chr c) (Lit s')
  end.

Fixpoint Seqs (rs : list regex) : regex :=
  match rs with
  | [] => Eps
  | [r] => r
  | r :: rs' => Seq r (Seqs rs')
  end.

Record t : Type := mk { source : regex; global : bool; ignoreCase : bool }.

Definition in_range (lo hi c : ascii) : bool :=
  (Nat.leb (nat_of_ascii lo) (nat_of_ascii c)
   && Nat.leb (nat_of_ascii c) (nat_of_ascii hi))%bool.

Definition to_upper (c : ascii) : ascii :=
  if in_range "a" "z" c then ascii_of_nat (nat_of_ascii c - 32) else c.

Definition to_lower (c : ascii) : ascii :=
  if in_range "A" "Z" c then ascii_of_nat (nat_of_ascii c + 32) else c.

(** A character belongs to a class when it lies in one of its ranges; with
    the [i] flag, when some member of the class has the same upper-case
    form. *)
Definition class_matches (ic : bool) (ranges : list (ascii * ascii))
           (c : ascii) : bool :=
  existsb (fun '(lo, hi) =>
             in_range lo hi c
             || (ic && (in_range lo hi (to_upper c)
                        || in_range lo hi (to_lower c))))
          ranges.

Section Matcher.
Variable ic : bool.

(** [run r bol s k]: match [r] at the front of [s] ([bol] tells whether
    [s] starts at index 0) and hand what is left to [k]; alternatives
    are tried in the order a backtracking engine tries them.  An
    iteration of a star that consumes nothing is abandoned. *)
Fixpoint run (r : regex) (bol : bool) (s : string)
         (k : bool -> string -> option string) {struct r}
  : option string :=
  match r with
  | Eps => k bol s
  | Class ranges =>
      match s with
      | String c s' => if class_matches ic ranges c then k false s' else None
      | EmptyString => None
      end
  | Seq r1 r2 => run r1 bol s (fun b s' => run r2 b s' k)
  | Alt r1 r2 =>
      match run r1 bol s k with
      | Some rest => Some rest
      | None => run r2 bol s k
      end
  | Star r' =>
      (fix iter (fuel : nat) (bol : bool) (s : string) {struct fuel}
         : option string :=
         match fuel with
         | O => k bol s
         | S fuel' =>
             match run r' bol s
                       (fun b s' =>
                          if Nat.ltb (String.length s') (String.length s)
                          then iter fuel' b s' else None) with
             | Some rest => Some rest
             | None => k bol s
             end
         end) (String.length s) bol s
  | Bol => if bol then k bol s else None
  | Eol => match s with EmptyString => k bol s | _ => None end
  | Named _ r' => run r' bol s k
  end.

(** One match attempt at the front of [s]: what is left after it. *)
Definition match_here (r : regex) (bol : bool) (s : string)
  : option string :=
  run r bol s (fun _ rest => Some rest).

(** The leftmost match at or after the front of [s]: the matched text
    and what follows it. *)
Fixpoint search (r : regex) (bol : bool) (s : string)
  : option (string * string) :=
  match match_here r bol s with
  | Some rest =>
      Some (String.substring 0 (String.length s - String.length rest) s,
            rest)
  | None =>
      match s with
      | String _ s' => search r false s'
      | EmptyString => None
      end
  end.

(** All successive matches, as the [g] flag collects them: after an
    empty match the scan moves on by one code unit. *)
Fixpoint match_all (fuel : nat) (r : regex) (bol : bool) (s : string)
  : list string :=
  match fuel with
  | O => []
  | S fuel' =>
      match search r bol s with
      | None => []
      | Some (m, rest) =>
          match m, rest with
          | EmptyString, EmptyString => [m]
          | EmptyString, String _ rest' => m :: match_all fuel' r false rest'
          | _, _ => m :: match_all fuel' r false rest
          end
      end
  end.
End Matcher.

(** [re.test(s)] when [re.lastIndex] is 0, as it is for a pattern without
    the [g] and [y] flags and for one not used before.  A [g]- or
    [y]-flagged pattern starts at its [lastIndex] and moves it, so
    successive tests of one such object can differ; that state is not
    carried here. *)
Definition test (re : t) (s : string) : bool :=
  match search (ignoreCase re) (source re) true s with
  | Some _ => true
  | None => false
  end.

(** [s.match(re)] for a regular expression with the [g] flag: [null]
    ([None]) when nothing matches, otherwise the array of the matched
    texts; capture groups are not part of that array. *)
Definition match_g (re : t) (s : string) : option (list string) :=
  match match_all (ignoreCase re) (S (String.length s)) (source re) true s with
  | [] => None
  | ms => Some ms
  end.

End RegExp.

Import RegExp.

Definition digit : regex := Class [("0", "9")]%char.

(** The grammar of a version string, [semanticVersionRegex], flags [gi].
    Each line of the definition carries the piece of the pattern it
    embeds. *)
Definition semanticVersionRegex : RegExp.t :=
  RegExp.mk
    (Seqs
       [ Bol;                                   (* ^ *)
         (* (?:(?<Label>v|(?:ver)|(?:version)) ?)? *)
         Opt (Seq (Named "Label" (Alt (Lit "v") (Alt (Lit "ver") (Lit "version"))))
                  (Opt (Chr " ")));
         Named "Major" (Plus digit);              (* (?<Major>\d+) *)
         Chr ".";                                 (* \. *)
         Named "Minor" (Plus digit);              (* (?<Minor>\d+) *)
         Chr ".";                                 (* \. *)
         Named "Patch" (Plus digit);              (* (?<Patch>\d+) *)
         (* (?:\.(?<Hotfix>\d+))? *)
         Opt (Seq (Chr ".") (Named "Hotfix" (Plus digit)));
         (* (?:\.(?<Prerelease> [1-9a-z] [0-9a-z.]* ))? *)
         Opt (Seq (Chr ".")
                  (Named "Prerelease"
                         (Seq (Class [("1", "9"); ("a", "z")]%char)
                              (Star (Class [("0", "9"); ("a", "z"); (".", ".")]%char)))));
         (* (?:\+(?<Build> (?:[0-9a-z.-]+)* ))? *)
         Opt (Seq (Chr "+")
                  (Named "Build"
                         (Star (Plus (Class [("0", "9"); ("a", "z");
                                             (".", "."); ("-", "-")]%char)))));
         Eol ])                                   (* $ *)
    true true.

(** [alphaNumericWithPrefixRuleRegex]: [^], [[1-9a-z-]], [[0-9a-z-]]
    starred, [$]; flags [gi]. *)
Definition alphaNumericWithPrefixRuleRegex : RegExp.t :=
  RegExp.mk
    (Seqs [ Bol;
            Class [("1", "9"); ("a", "z"); ("-", "-")]%char;
            Star (Class [("0", "9"); ("a", "z"); ("-", "-")]%char);
            Eol ])
    true true.

(** [alphaNumericRegex]: [^], one or more of [[0-9a-z-]], [$]; flags
    [gi]. *)
Definition alphaNumericRegex : RegExp.t :=
  RegExp.mk
    (Seqs [ Bol;
            Plus (Class [("0", "9"); ("a", "z"); ("-", "-")]%char);
            Eol ])
    true true.

(** The pattern of [LabelSchema], [^v|(?:ver)|(?:version)?$] with flags
    [gi]: alternation binds loosest, so its three alternatives are [^v],
    [ver] and [(?:version)?$]. *)
Definition labelRegex : RegExp.t :=
  RegExp.mk
    (Alt (Seq Bol (Lit "v"))
         (Alt (Lit "ver")
              (Seq (Opt (Lit "version")) Eol)))
    true true.

(* ================================================================= *)
(** ** Compliance settings and the class's instance data *)

(** A JavaScript number, as far as the module looks at it: an integral
    value, a value that is not an integer (a fraction or an infinity), or
    NaN. *)
Inductive number : Type :=
| Int (z : Z)
| NonInteger
| NaN.

(** An element of an allow-list: [(string | number | RegExp)]. *)
Inductive rule : Type :=
| RString (s : string)
| RNumber (n : number)
| RRegExp (re : RegExp.t).

(** ["required" | "optional" | "forbidden" | (string | RegExp)[]]. *)
Inductive setting : Type :=
| required
| optional
| forbidden
| oneOf (rules : list rule).

(** [SemanticVersionComplianceSettings]. *)
Module Settings.
Record t : Type := mk {
  Branch : setting;
  Label : setting;
  Hotfix : setting;
  Prerelease : setting;
  Build : setting
}.
End Settings.

Definition SemanticVersionComplianceSettings : Type := Settings.t.

(** The governed fields, [keyof SemanticVersionComplianceSettings]. *)
Inductive Key : Type := KBranch | KLabel | KHotfix | KPrerelease | KBuild.

Definition key_name (key : Key) : string :=
  match key with
  | KBranch => "Branch"
  | KLabel => "Label"
  | KHotfix => "Hotfix"
  | KPrerelease => "Prerelease"
  | KBuild => "Build"
  end.

Definition setting_of (key : Key) (cs : Settings.t) : setting :=
  match key with
  | KBranch => Settings.Branch cs
  | KLabel => Settings.Label cs
  | KHotfix => Settings.Hotfix cs
  | KPrerelease => Settings.Prerelease cs
  | KBuild => Settings.Build cs
  end.

(** The private fields of a [SemanticVersion] instance.  The instance's
    [_complianceSettings] is [undefined] ([None]) when it was taken from a
    static default that was never set. *)
Record SemanticVersion : Type := mkVersion {
  _branch : option string;
  _label : option string;
  _major : Z;
  _minor : Z;
  _patch : Z;
  _hotfix : option Z;
  _prerelease : option string;
  _build : option string;
  _complianceSettings : option Settings.t
}.

(** The getters. *)
Definition ComplianceSettings (this : SemanticVersion) := _complianceSettings this.
Definition Branch (this : SemanticVersion) := _branch this.
Definition Label (this : SemanticVersion) := _label this.
Definition Major (this : SemanticVersion) := _major this.
Definition Minor (this : SemanticVersion) := _minor this.
Definition Patch (this : SemanticVersion) := _patch this.
Definition Hotfix (this : SemanticVersion) := _hotfix this.
Definition Prerelease (this : SemanticVersion) := _prerelease this.
Definition Build (this : SemanticVersion) := _build this.

(* ================================================================= *)
(** ** JavaScript values *)

Inductive jsval : Type :=
| JUndefined
| JNull
| JBool (b : bool)
| JNum (n : number)
| JStr (s : string)
| JFunction
| JRegExp (re : RegExp.t)
| JArray (xs : list jsval)
| JObject (props : list (string * jsval))   (* a plain object *)
| JVersion (v : SemanticVersion).           (* an instance of the class *)

Inductive js_type : Type :=
| t_undefined | t_object | t_boolean | t_number | t_string | t_function.

Definition typeof (v : jsval) : js_type :=
  match v with
  | JUndefined => t_undefined
  | JNull => t_object
  | JBool _ => t_boolean
  | JNum _ => t_number
  | JStr _ => t_string
  | JFunction => t_function
  | JRegExp _ | JArray _ | JObject _ | JVersion _ => t_object
  end.

Definition js_type_eqb (a b : js_type) : bool :=
  match a, b with
  | t_undefined, t_undefined | t_object, t_object | t_boolean, t_boolean
  | t_number, t_number | t_string, t_string | t_function, t_function => true
  | _, _ => false
  end.

(** [ToBoolean]. *)
Definition truthy (v : jsval) : bool :=
  match v with
  | JUndefined | JNull => false
  | JBool b => b
  | JNum (Int z) => negb (z =? 0)
  | JNum NonInteger => true
  | JNum NaN => false
  | JStr s => negb (String.eqb s "")
  | _ => true
  end.

(** [a === b] where one side is a field of a version: a string, an
    integral number or [undefined]. *)
Definition strict_eq (a b : jsval) : bool :=
  match a, b with
  | JUndefined, JUndefined => true
  | JStr x, JStr y => String.eqb x y
  | JNum (Int x), JNum (Int y) => x =? y
  | _, _ => false
  end.

Definition js_of_string (o : option string) : jsval :=
  match o with Some s => JStr s | None => JUndefined end.

Definition js_of_Z (o : option Z) : jsval :=
  match o with Some z => JNum (Int z) | None => JUndefined end.

Definition js_of_rule (r : rule) : jsval :=
  match r with
  | RString s => JStr s
  | RNumber n => JNum n
  | RRegExp re => JRegExp re
  end.

Definition js_of_setting (s : setting) : jsval :=
  match s with
  | required => JStr "required"
  | optional => JStr "optional"
  | forbidden => JStr "forbidden"
  | oneOf rules => JArray (map js_of_rule rules)
  end.

Definition js_of_settings (cs : Settings.t) : jsval :=
  JObject [ ("Branch", js_of_setting (Settings.Branch cs));
            ("Label", js_of_setting (Settings.Label cs));
            ("Hotfix", js_of_setting (Settings.Hotfix cs));
            ("Prerelease", js_of_setting (Settings.Prerelease cs));
            ("Build", js_of_setting (Settings.Build cs)) ].

Definition js_of_settings_opt (o : option Settings.t) : jsval :=
  match o with Some cs => js_of_settings cs | None => JUndefined end.

(** Properties of an object literal: the first binding of a key. *)
Fixpoint lookup (key : string) (props : list (string * jsval)) : jsval :=
  match props with
  | [] => JUndefined
  | (k, v) :: rest => if String.eqb k key then v else lookup key rest
  end.

(** [{ ...props, key: v }]: the key keeps its place when it was there and
    is added at the end otherwise. *)
Fixpoint set_prop (key : string) (v : jsval) (props : list (string * jsval))
  : list (string * jsval) :=
  match props with
  | [] => [(key, v)]
  | (k, v0) :: rest =>
      if String.eqb k key then (k, v) :: rest
      else (k, v0) :: set_prop key v rest
  end.

(** The own enumerable properties of an instance, which [{ ...this }]
    copies: the private fields under their underscore names. *)
Definition own_props (this : SemanticVersion) : list (string * jsval) :=
  [ ("_branch", js_of_string (_branch this));
    ("_label", js_of_string (_label this));
    ("_major", JNum (Int (_major this)));
    ("_minor", JNum (Int (_minor this)));
    ("_patch", JNum (Int (_patch this)));
    ("_hotfix", js_of_Z (_hotfix this));
    ("_prerelease", js_of_string (_prerelease this));
    ("_build", js_of_string (_build this));
    ("_complianceSettings", js_of_settings_opt (_complianceSettings this)) ].

(** The getters an instance inherits from the prototype. *)
Definition getters (this : SemanticVersion) : list (string * jsval) :=
  [ ("ComplianceSettings", js_of_settings_opt (ComplianceSettings this));
    ("Branch", js_of_string (Branch this));
    ("Label", js_of_string (Label this));
    ("Major", JNum (Int (Major this)));
    ("Minor", JNum (Int (Minor this)));
    ("Patch", JNum (Int (Patch this)));
    ("Hotfix", js_of_Z (Hotfix this));
    ("Prerelease", js_of_string (Prerelease this));
    ("Build", js_of_string (Build this)) ].

(** [v[key]] for a data property or getter; an array has no property
    besides its elements and [length]. *)
Definition get_prop (v : jsval) (key : string) : jsval :=
  match v with
  | JObject props => lookup key props
  | JVersion this => lookup key (own_props this ++ getters this)
  | JArray xs =>
      if String.eqb key "length" then JNum (Int (Z.of_nat (List.length xs)))
      else JUndefined
  | _ => JUndefined
  end.

(* ================================================================= *)
(** ** The zod schemas *)

(** [schema.safeParse(x)] either succeeds with typed data or fails with
    issues.  An issue keeps the field it is about and zod's issue code; the
    model reports, per field, the first check that fails. *)
Module Zod.

Inductive issue_code : Type :=
| invalid_type      (* also an absent required field *)
| too_small
| too_big
| custom (message : option string)
| invalid_union.

Record issue : Type := mkIssue { path : list string; code : issue_code }.

Inductive parsed (A : Type) : Type :=
| success (data : A)
| failure (issues : list issue).
Arguments success {A} data.
Arguments failure {A} issues.

Definition is_success {A} (p : parsed A) : bool :=
  match p with success _ => true | failure _ => false end.

Definition issues_of {A} (p : parsed A) : list issue :=
  match p with success _ => [] | failure es => es end.

Definition at_path {A} (field : string) (p : parsed A) : parsed A :=
  match p with
  | success d => success d
  | failure es =>
      failure (map (fun i => mkIssue (field :: path i) (code i)) es)
  end.

(** What zod takes for an object: not an array, not [null]. *)
Definition is_object (x : jsval) : bool :=
  match x with
  | JObject _ | JRegExp _ | JVersion _ => true
  | _ => false
  end.

End Zod.

Import Zod.

Definition MAX_SAFE_INTEGER : Z := 9007199254740991.

(** [z.string().refine((k) => k.match(labelRegex)).optional()]: the
    refinement passes when [match] returns an array, which is truthy. *)
Definition LabelSchema (x : jsval) : parsed (option string) :=
  match x with
  | JUndefined => success None
  | JStr k =>
      match RegExp.match_g labelRegex k with
      | Some _ => success (Some k)
      | None => failure [mkIssue [] (custom None)]
      end
  | _ => failure [mkIssue [] invalid_type]
  end.

(** [z.number().int().nonnegative().safe().finite()]. *)
Definition MajorVersionSchema (x : jsval) : parsed Z :=
  match x with
  | JNum (Int z) =>
      if z <? 0 then failure [mkIssue [] too_small]
      else if MAX_SAFE_INTEGER <? z then failure [mkIssue [] too_big]
      else success z
  | _ => failure [mkIssue [] invalid_type]
  end.

Definition MinorVersionSchema := MajorVersionSchema.
Definition PatchVersionSchema := MajorVersionSchema.

Definition HotfixVersionSchema (x : jsval) : parsed (option Z) :=
  match x with
  | JUndefined => success None
  | _ => match MajorVersionSchema x with
         | success z => success (Some z)
         | failure es => failure es
         end
  end.

(** [k.split(".").every((piece) => piece.match(re) !== null)]. *)
Definition every_piece_matches (re : RegExp.t) (k : string) : bool :=
  forallb (fun piece => match RegExp.match_g re piece with
                        | Some _ => true
                        | None => false
                        end)
          (JsString.split "." k).

Definition PrereleaseVersionSchema (x : jsval) : parsed (option string) :=
  match x with
  | JUndefined => success None
  | JStr k =>
      if every_piece_matches alphaNumericWithPrefixRuleRegex k
      then success (Some k)
      else failure [mkIssue [] (custom (Some
             "Prerelease Version does not match required format."))]
  | _ => failure [mkIssue [] invalid_type]
  end.

Definition BuildVersionSchema (x : jsval) : parsed (option string) :=
  match x with
  | JUndefined => success None
  | JStr k =>
      if every_piece_matches alphaNumericRegex k
      then success (Some k)
      else failure [mkIssue [] (custom (Some
             "Build Version does not match required format."))]
  | _ => failure [mkIssue [] invalid_type]
  end.

(** [z.string().min(1).optional()]. *)
Definition BranchSchema (x : jsval) : parsed (option string) :=
  match x with
  | JUndefined => success None
  | JStr k =>
      if String.eqb k "" then failure [mkIssue [] too_small]
      else success (Some k)
  | _ => failure [mkIssue [] invalid_type]
  end.

(** The literals an allow-list may hold besides regular expressions:
    strings for Branch, Label, Prerelease and Build, numbers for Hotfix. *)
Inductive literal_kind : Type := string_literals | number_literals.

(** [z.union([z.string(), z.instanceof(RegExp)])], or with [z.number()]. *)
Definition RuleSchema (kind : literal_kind) (x : jsval) : option rule :=
  match kind, x with
  | _, JRegExp re => Some (RRegExp re)
  | string_literals, JStr s => Some (RString s)
  | number_literals, JNum (Int z) => Some (RNumber (Int z))
  | number_literals, JNum NonInteger => Some (RNumber NonInteger)
  | _, _ => None
  end.

Fixpoint RulesSchema (kind : literal_kind) (xs : list jsval)
  : option (list rule) :=
  match xs with
  | [] => Some []
  | x :: xs' =>
      match RuleSchema kind x, RulesSchema kind xs' with
      | Some r, Some rs => Some (r :: rs)
      | _, _ => None
      end
  end.

(** [z.union([z.literal("required"), z.literal("optional"),
    z.literal("forbidden"), z.array(...)]).default("optional")]. *)
Definition SettingSchema (kind : literal_kind) (x : jsval) : parsed setting :=
  match x with
  | JUndefined => success optional
  | JStr s =>
      if String.eqb s "required" then success required
      else if String.eqb s "optional" then success optional
      else if String.eqb s "forbidden" then success forbidden
      else failure [mkIssue [] invalid_union]
  | JArray xs =>
      match RulesSchema kind xs with
      | Some rs => success (oneOf rs)
      | None => failure [mkIssue [] invalid_union]
      end
  | _ => failure [mkIssue [] invalid_union]
  end.

(** The [complianceSettings] member: [z.object({ ... }).optional()]. *)
Definition ComplianceSettingsSchema (x : jsval) : parsed (option Settings.t) :=
  match x with
  | JUndefined => success None
  | _ =>
      if is_object x then
        let b := at_path "Branch" (SettingSchema string_literals (get_prop x "Branch")) in
        let l := at_path "Label" (SettingSchema string_literals (get_prop x "Label")) in
        let h := at_path "Hotfix" (SettingSchema number_literals (get_prop x "Hotfix")) in
        let p := at_path "Prerelease" (SettingSchema string_literals (get_prop x "Prerelease")) in
        let u := at_path "Build" (SettingSchema string_literals (get_prop x "Build")) in
        match b, l, h, p, u with
        | success b', success l', success h', success p', success u' =>
            success (Some (Settings.mk b' l' h' p' u'))
        | _, _, _, _, _ =>
            failure (issues_of b ++ issues_of l ++ issues_of h
                     ++ issues_of p ++ issues_of u)
        end
      else failure [mkIssue [] invalid_type]
  end.

(** [SemanticVersionStruct], the output type of [SemanticVersionSchema]. *)
Record SemanticVersionStruct : Type := mkStruct {
  branch : option string;
  label : option string;
  major : Z;
  minor : Z;
  patch : Z;
  hotfix : option Z;
  prerelease : option string;
  build : option string;
  complianceSettings : option Settings.t
}.

(** [SemanticVersionSchema.safeParse]: every member is read from the
    object under its lower-case key and validated; unknown keys are
    dropped; the issues of all members are collected. *)
Definition SemanticVersionSchema (x : jsval) : parsed SemanticVersionStruct :=
  if is_object x then
    let b := at_path "branch" (BranchSchema (get_prop x "branch")) in
    let l := at_path "label" (LabelSchema (get_prop x "label")) in
    let ma := at_path "major" (MajorVersionSchema (get_prop x "major")) in
    let mi := at_path "minor" (MinorVersionSchema (get_prop x "minor")) in
    let pa := at_path "patch" (PatchVersionSchema (get_prop x "patch")) in
    let h := at_path "hotfix" (HotfixVersionSchema (get_prop x "hotfix")) in
    let pr := at_path "prerelease" (PrereleaseVersionSchema (get_prop x "prerelease")) in
    let bu := at_path "build" (BuildVersionSchema (get_prop x "build")) in
    let cs := at_path "complianceSettings"
                      (ComplianceSettingsSchema (get_prop x "complianceSettings")) in
    match b, l, ma, mi, pa, h, pr, bu, cs with
    | success b', success l', success ma', success mi', success pa',
      success h', success pr', success bu', success cs' =>
        success (mkStruct b' l' ma' mi' pa' h' pr' bu' cs')
    | _, _, _, _, _, _, _, _, _ =>
        failure (issues_of b ++ issues_of l ++ issues_of ma ++ issues_of mi
                 ++ issues_of pa ++ issues_of h ++ issues_of pr
                 ++ issues_of bu ++ issues_of cs)
    end
  else failure [mkIssue [] invalid_type].

(** The object zod hands back as [parsed.data]. *)
Definition js_of_struct (d : SemanticVersionStruct) : jsval :=
  JObject [ ("branch", js_of_string (branch d));
            ("label", js_of_string (label d));
            ("major", JNum (Int (major d)));
            ("minor", JNum (Int (minor d)));
            ("patch", JNum (Int (patch d)));
            ("hotfix", js_of_Z (hotfix d));
            ("prerelease", js_of_string (prerelease d));
            ("build", js_of_string (build d));
            ("complianceSettings", js_of_settings_opt (complianceSettings d)) ].

(* ================================================================= *)
(** ** The class [SemanticVersion] *)

(** What a [throw] carries. *)
Inductive exn : Type :=
| ValidationError (issues : list issue)
    (* new Error(parsed.error.errors.map((e) => e.message).join("\n")) *)
| InvalidSemanticVersionString       (* "Invalid Semantic Version String" *)
| InvalidSemanticVersionInitializer  (* "Invalid Semantic Version Initializer" *)
| TypeError.                         (* a property read on undefined *)

Inductive result (A : Type) : Type :=
| Ok (a : A)
| Throw (e : exn).
Arguments Ok {A} a.
Arguments Throw {A} e.

Definition throws {A} (r : result A) : bool :=
  match r with Ok _ => false | Throw _ => true end.

Definition as_string (v : jsval) : string :=
  match v with JStr s => s | _ => "" end.

(** [s.match(re)] as a value: [null] or an array of strings. *)
Definition String_match (s : string) (re : RegExp.t) : jsval :=
  match RegExp.match_g re s with
  | Some ms => JArray (map JStr ms)
  | None => JNull
  end.

Definition fields_of (d : SemanticVersionStruct) (cs : option Settings.t)
  : SemanticVersion :=
  mkVersion (branch d) (label d) (major d) (minor d) (patch d) (hotfix d)
            (prerelease d) (build d) cs.

(** [new SemanticVersion(initializer)]; [static] is the value of the
    static [SemanticVersion._complianceSettings] at the time of the call. *)
Definition new_SemanticVersion (static : option Settings.t)
           (initializer : jsval) : result SemanticVersion :=
  if truthy initializer && js_type_eqb (typeof initializer) t_string then
    let match_ := String_match (as_string initializer) semanticVersionRegex in
    if truthy match_ then
      let groups := get_prop match_ "groups" in
      match SemanticVersionSchema groups with
      | success d => Ok (fields_of d static)
      | failure es => Throw (ValidationError es)
      end
    else Throw InvalidSemanticVersionString
  else if truthy initializer && js_type_eqb (typeof initializer) t_object then
    (* the settings copied from an initializer that is an instance are
       overwritten below when validation succeeds *)
    match SemanticVersionSchema initializer with
    | success d =>
        Ok (fields_of d (match complianceSettings d with
                         | Some cs => Some cs
                         | None => static
                         end))
    | failure es => Throw (ValidationError es)
    end
  else
    match initializer with
    | JNull | JUndefined =>
        Ok (mkVersion None None 0 0 1 None None None static)
    | _ => Throw InvalidSemanticVersionInitializer
    end.

Section Methods.
Variable static : option Settings.t.
Variable this : SemanticVersion.

(** [new SemanticVersion({ ...this, key: value, ... })]. *)
Definition spread_with (overrides : list (string * jsval)) : jsval :=
  JObject (fold_left (fun props kv => set_prop (fst kv) (snd kv) props)
                     overrides (own_props this)).

Definition changeBranch (branch : option string) :=
  new_SemanticVersion static (spread_with [("branch", js_of_string branch)]).
Definition changeLabel (label : option string) :=
  new_SemanticVersion static (spread_with [("label", js_of_string label)]).
Definition changeMajor (major : number) :=
  new_SemanticVersion static (spread_with [("major", JNum major)]).
Definition changeMinor (minor : number) :=
  new_SemanticVersion static (spread_with [("minor", JNum minor)]).
Definition changePatch (patch : number) :=
  new_SemanticVersion static (spread_with [("patch", JNum patch)]).
Definition changeHotfix (hotfix : option number) :=
  new_SemanticVersion static
    (spread_with [("hotfix", match hotfix with
                             | Some n => JNum n
                             | None => JUndefined
                             end)]).
Definition changePrerelease (prerelease : option string) :=
  new_SemanticVersion static
    (spread_with [("prerelease", js_of_string prerelease)]).
Definition changeBuild (build : option string) :=
  new_SemanticVersion static (spread_with [("build", js_of_string build)]).

Definition incrementMajor :=
  new_SemanticVersion static
    (spread_with [ ("major", JNum (Int (Major this + 1)));
                   ("minor", JNum (Int 0));
                   ("patch", JNum (Int 0));
                   ("hotfix", JUndefined);
                   ("prerelease", JUndefined);
                   ("build", JUndefined) ]).
Definition incrementMinor :=
  new_SemanticVersion static
    (spread_with [ ("minor", JNum (Int (Minor this + 1)));
                   ("patch", JNum (Int 0));
                   ("hotfix", JUndefined);
                   ("prerelease", JUndefined);
                   ("build", JUndefined) ]).
Definition incrementPatch :=
  new_SemanticVersion static
    (spread_with [ ("patch", JNum (Int (Patch this + 1)));
                   ("hotfix", JUndefined);
                   ("prerelease", JUndefined);
                   ("build", JUndefined) ]).
Definition incrementHotfix :=
  new_SemanticVersion static
    (spread_with [ ("hotfix", JNum (Int (match Hotfix this with
                                         | Some h => h
                                         | None => 0
                                         end + 1)));
                   ("prerelease", JUndefined);
                   ("build", JUndefined) ]).

Definition toJSON : SemanticVersionStruct :=
  mkStruct (_branch this) (_label this) (_major this) (_minor this)
           (_patch this) (_hotfix this) (_prerelease this) (_build this)
           (_complianceSettings this).

Definition toString : string :=
  (match _branch this with Some b => b ++ " " | None => "" end)
  ++ (match _label this with Some l => l ++ " " | None => "" end)
  ++ JsString.of_Z (_major this) ++ "." ++ JsString.of_Z (_minor this)
  ++ "." ++ JsString.of_Z (_patch this)
  ++ (match _hotfix this with Some h => "." ++ JsString.of_Z h | None => "" end)
  ++ (match _prerelease this with Some p => "-" ++ p | None => "" end)
  ++ (match _build this with Some b => "+" ++ b | None => "" end).
End Methods.

(** [SemanticVersion.tryParse(input)]: [Ok None] is [undefined]. *)
Definition tryParse (static : option Settings.t) (input : jsval)
  : result (option SemanticVersion) :=
  let obj :=
    if js_type_eqb (typeof input) t_string then
      match String_match (as_string input) semanticVersionRegex with
      | JNull | JUndefined => JUndefined          (* ?. *)
      | m => get_prop m "groups"
      end
    else if js_type_eqb (typeof input) t_object
            && match input with JNull | JUndefined => false | _ => true end
    then input
    else JUndefined in
  if truthy obj then
    match SemanticVersionSchema obj with
    | success struct =>
        if truthy (js_of_struct struct) then
          match new_SemanticVersion static (js_of_struct struct) with
          | Ok v => Ok (Some v)
          | Throw e => Throw e
          end
        else Ok None
    | failure _ => Ok None
    end
  else Ok None.

(** The precedence comparator; [localeCompare] is the host's
    [String.prototype.localeCompare]. *)
Section Precedence.
Variable localeCompare : string -> string -> Z.

Definition option_string_eqb (a b : option string) : bool :=
  match a, b with
  | Some x, Some y => String.eqb x y
  | None, None => true
  | _, _ => false
  end.

Definition option_Z_eqb (a b : option Z) : bool :=
  match a, b with
  | Some x, Some y => x =? y
  | None, None => true
  | _, _ => false
  end.

Definition or_empty (o : option string) : string :=
  match o with Some s => s | None => "" end.

Definition or_zero (o : option Z) : Z :=
  match o with Some z => z | None => 0 end.

Definition comparePrecedence (this other : SemanticVersion) : Z :=
  if negb (option_string_eqb (Branch this) (Branch other)) then
    localeCompare (or_empty (Branch this)) (or_empty (Branch other))
  else if negb (Major this =? Major other) then Major this - Major other
  else if negb (Minor this =? Minor other) then Minor this - Minor other
  else if negb (Patch this =? Patch other) then Patch this - Patch other
  else if negb (option_Z_eqb (Hotfix this) (Hotfix other)) then
    or_zero (Hotfix this) - or_zero (Hotfix other)
  else 0.

Definition compare (a b : SemanticVersion) : Z := comparePrecedence a b.
End Precedence.

(** The process as far as the class sees it: the static default and the
    instances constructed so far, each named by its index. *)
Record Runtime : Type := mkRuntime {
  static_complianceSettings : option Settings.t;
  instances : list SemanticVersion
}.

Definition setDefaultComplianceSettings (settings : Settings.t)
           (rt : Runtime) : Runtime :=
  mkRuntime (Some settings) (instances rt).

Definition DefaultComplianceSettings (rt : Runtime) : option Settings.t :=
  static_complianceSettings rt.

(** A [new] expression evaluated in a runtime: the instance is added, or
    the constructor throws and nothing is. *)
Definition construct (initializer : jsval) (rt : Runtime)
  : Runtime * result nat :=
  match new_SemanticVersion (static_complianceSettings rt) initializer with
  | Ok v => (mkRuntime (static_complianceSettings rt) (instances rt ++ [v]),
             Ok (List.length (instances rt)))
  | Throw e => (rt, Throw e)
  end.

(** One operation of a program on the class; the [change] and [increment]
    methods allocate through the constructor. *)
Inductive step : Runtime -> Runtime -> Prop :=
| step_setDefault (settings : Settings.t) (rt : Runtime) :
    step rt (setDefaultComplianceSettings settings rt)
| step_construct (initializer : jsval) (rt : Runtime) :
    step rt (fst (construct initializer rt)).

Inductive steps : Runtime -> Runtime -> Prop :=
| steps_refl (rt : Runtime) : steps rt rt
| steps_cons (rt1 rt2 rt3 : Runtime) :
    step rt1 rt2 -> steps rt2 rt3 -> steps rt1 rt3.

(* ================================================================= *)
(** ** The compliance checks *)

Inductive severity : Type := error | warning | info.

Definition severity_eqb (a b : severity) : bool :=
  match a, b with
  | error, error | warning, warning | info, info => true
  | _, _ => false
  end.

(** [ComplianceMessage]. *)
Record ComplianceMessage : Type := mkMessage {
  message : string;
  type : severity
}.

(** The messages of the standard check also name their field. *)
Record FieldMessage : Type := mkFieldMessage {
  field : string;
  body : ComplianceMessage
}.

(** [ComplianceReport<Key>]. *)
Module Report.
Record t : Type := mk {
  field : Key;
  success : bool;
  messages : list ComplianceMessage
}.
End Report.

(** The [{ success, messages }] object both checks return. *)
Module Outcome.
Record t (M : Type) : Type := mk {
  success : bool;
  messages : list M
}.
Arguments mk {M} success messages.
Arguments success {M} t.
Arguments messages {M} t.
End Outcome.

(** [struct[key]] for a governed field. *)
Definition field_value (key : Key) (struct : SemanticVersion) : jsval :=
  match key with
  | KBranch => js_of_string (Branch struct)
  | KLabel => js_of_string (Label struct)
  | KHotfix => js_of_Z (Hotfix struct)
  | KPrerelease => js_of_string (Prerelease struct)
  | KBuild => js_of_string (Build struct)
  end.

(** [value.toString()] for a string or an integral number. *)
Definition js_toString (v : jsval) : string :=
  match v with
  | JStr s => s
  | JNum (Int z) => JsString.of_Z z
  | _ => ""
  end.

(** The callback of [setting.some(...)].  A regular expression is tested
    from its start, which is what the code does unless the caller's
    pattern carries the [g] or [y] flag and was left with a non-zero
    [lastIndex]. *)
Definition rule_matches (value : jsval) (s : rule) : bool :=
  match s with
  | RString s' =>
      if String.eqb s' "" then strict_eq value JUndefined
      else strict_eq (JStr s') value
  | RNumber n => strict_eq (JNum n) value
  | RRegExp re => RegExp.test re (if truthy value then js_toString value else "")
  end.

(** [struct] is an instance, hence truthy: the [throw] after the
    [if (struct)] block is never reached. *)
Definition checkCustomComplianceForSingleSetting (key : Key)
           (struct : SemanticVersion) : result Report.t :=
  match ComplianceSettings struct with
  | None => Throw TypeError          (* struct.ComplianceSettings[key] *)
  | Some cs =>
      let setting := setting_of key cs in
      let expectedType := match key with KHotfix => t_number | _ => t_string end in
      let value := field_value key struct in
      let violation (what : string) :=
        Ok (Report.mk key false
              [mkMessage ("Semantic Version Setting " ++ key_name key ++ what)
                         error]) in
      let pass := Ok (Report.mk key true []) in
      match setting with
      | required =>
          if negb (truthy value)
             || negb (js_type_eqb (typeof value) expectedType)
             || (if js_type_eqb expectedType t_string
                 then Nat.ltb 0 (String.length (JsString.trim (as_string value)))
                 else true)
          then violation " is required"
          else pass
      | forbidden =>
          if negb (strict_eq value JUndefined)
          then violation " is forbidden"
          else pass
      | optional => pass
      | oneOf rules =>
          if negb (existsb (rule_matches value) rules)
          then violation " does not match required format"
          else pass
      end
  end.

Definition checkCustomCompliance (struct : SemanticVersion)
  : result (Outcome.t ComplianceMessage) :=
  match checkCustomComplianceForSingleSetting KBranch struct,
        checkCustomComplianceForSingleSetting KLabel struct,
        checkCustomComplianceForSingleSetting KHotfix struct,
        checkCustomComplianceForSingleSetting KPrerelease struct,
        checkCustomComplianceForSingleSetting KBuild struct with
  | Ok b, Ok l, Ok h, Ok p, Ok u =>
      let complianceMessages := [b; l; h; p; u] in
      Ok (Outcome.mk (forallb Report.success complianceMessages)
                     (flat_map Report.messages complianceMessages))
  | Throw e, _, _, _, _ => Throw e
  | _, Throw e, _, _, _ => Throw e
  | _, _, Throw e, _, _ => Throw e
  | _, _, _, Throw e, _ => Throw e
  | _, _, _, _, Throw e => Throw e
  end.

Definition is_undefined (v : jsval) : bool :=
  match v with JUndefined => true | _ => false end.

(** One entry of the array literal that is built when a schema decides:
    [schema.safeParse(value).success ? null : { field, message, "error" }]. *)
Definition unless_valid {A} (p : parsed A) (field message : string)
  : option FieldMessage :=
  if is_success p then None
  else Some (mkFieldMessage field (mkMessage message error)).

Definition checkStandardCompliance (struct : SemanticVersion) (strict : bool)
  : Outcome.t FieldMessage :=
  let messages :=
    flat_map (fun k => match k with Some m => [m] | None => [] end)
      [ if strict then
          Some (mkFieldMessage "Branch"
                  (mkMessage "Branch is not a standard notation"
                     (if negb (is_undefined (js_of_string (Branch struct)))
                      then error else info)))
        else unless_valid (BranchSchema (js_of_string (Branch struct)))
                          "Branch" "Branch does not match required format";
        if strict && truthy (js_of_string (Label struct)) then
          Some (mkFieldMessage "Label"
                  (mkMessage "Label is not a standard notation" error))
        else unless_valid (LabelSchema (js_of_string (Label struct)))
                          "Label" "Label does not match required format";
        unless_valid (MajorVersionSchema (JNum (Int (Major struct))))
                     "Major" "Major Version does not match required format";
        unless_valid (MinorVersionSchema (JNum (Int (Minor struct))))
                     "Minor" "Minor Version does not match required format";
        unless_valid (PatchVersionSchema (JNum (Int (Patch struct))))
                     "Patch" "Patch Version does not match required format";
        if strict then
          Some (mkFieldMessage "Hotfix"
                  (mkMessage "Hotfix is not a standard notation"
                     (if negb (is_undefined (js_of_Z (Hotfix struct)))
                      then error else info)))
        else unless_valid (HotfixVersionSchema (js_of_Z (Hotfix struct)))
                          "Hotfix" "Hotfix Version does not match required format";
        unless_valid (PrereleaseVersionSchema (js_of_string (Prerelease struct)))
                     "Prerelease" "Prerelease Version does not match required format";
        unless_valid (BuildVersionSchema (js_of_string (Build struct)))
                     "Build" "Build Version does not match required format" ] in
  Outcome.mk
    (negb (existsb (fun m => severity_eqb (type (body m)) error) messages))
    messages.

Definition isStandardCompliant (this : SemanticVersion) (strict : bool) : bool :=
  Outcome.success (checkStandardCompliance this strict).

Definition isCustomCompliant (this : SemanticVersion) : result bool :=
  match checkCustomCompliance this with
  | Ok o => Ok (Outcome.success o)
  | Throw e => Throw e
  end.

(* ================================================================= *)
(** ** Sample values used by the concrete statements *)

(** [{ branch: "release", major: 2, minor: 0, patch: 0, hotfix: 5,
       prerelease: "beta.1", build: "build.007" }] *)
Definition release_fields : jsval :=
  JObject [ ("branch", JStr "release");
            ("major", JNum (Int 2)); ("minor", JNum (Int 0));
            ("patch", JNum (Int 0)); ("hotfix", JNum (Int 5));
            ("prerelease", JStr "beta.1"); ("build", JStr "build.007") ].

Definition release_version : SemanticVersion :=
  mkVersion (Some "release") None 2 0 0 (Some 5) (Some "beta.1")
            (Some "build.007") None.

(** [{ major: 1, minor: 2, patch: 3 }] *)
Definition plain_fields : jsval :=
  JObject [ ("major", JNum (Int 1)); ("minor", JNum (Int 2));
            ("patch", JNum (Int 3)) ].

Definition plain_version : SemanticVersion :=
  mkVersion None None 1 2 3 None None None None.

(** [{ label: "foo", major: 1, minor: 0, patch: 0 }] *)
Definition foo_label_fields : jsval :=
  JObject [ ("label", JStr "foo"); ("major", JNum (Int 1));
            ("minor", JNum (Int 0)); ("patch", JNum (Int 0)) ].

(** Settings that require one governed field and leave the others
    optional. *)
Definition require_only (key : Key) : Settings.t :=
  Settings.mk (match key with KBranch => required | _ => optional end)
              (match key with KLabel => required | _ => optional end)
              (match key with KHotfix => required | _ => optional end)
              (match key with KPrerelease => required | _ => optional end)
              (match key with KBuild => required | _ => optional end).

(** [{ branch: "main", major: 1, minor: 0, patch: 0 }] *)
Definition main_fields : jsval :=
  JObject [ ("branch", JStr "main"); ("major", JNum (Int 1));
            ("minor", JNum (Int 0)); ("patch", JNum (Int 0)) ].

Definition main_version : SemanticVersion :=
  mkVersion (Some "main") None 1 0 0 None None None None.

(** [{ label: "", major: 1, minor: 0, patch: 0 }] *)
Definition empty_label_fields : jsval :=
  JObject [ ("label", JStr ""); ("major", JNum (Int 1));
            ("minor", JNum (Int 0)); ("patch", JNum (Int 0)) ].

Definition empty_label_version : SemanticVersion :=
  mkVersion None (Some "") 1 0 0 None None None None.

(** [{ branch: "main", major: 1, minor: 0, patch: 0, hotfix: 5,
       complianceSettings: { Branch: "required", Hotfix: "required" } }] *)
Definition governed_fields : jsval :=
  JObject [ ("branch", JStr "main"); ("major", JNum (Int 1));
            ("minor", JNum (Int 0)); ("patch", JNum (Int 0));
            ("hotfix", JNum (Int 5));
            ("complianceSettings",
             JObject [ ("Branch", JStr "required");
                       ("Hotfix", JStr "required") ]) ].

Definition governed_settings : Settings.t :=
  Settings.mk required optional required optional optional.

Definition governed_version : SemanticVersion :=
  mkVersion (Some "main") None 1 0 0 (Some 5) None None
            (Some governed_settings).

(** Comparison of strings by code units, one admissible
    [localeCompare]. *)
Definition codeUnitCompare (x y : string) : Z :=
  match String.compare x y with
  | Eq => 0
  | Lt => -1
  | Gt => 1
  end.



















(** A message of the standard check with a given field and severity. *)
Definition reports (o : Outcome.t FieldMessage) (f : string) (sev : severity)
  : Prop :=
  exists m, In m (Outcome.messages o) /\ field m = f /\ type (body m) = sev.

(** The severities of strict mode as the specification words them. *)
Definition strict_severities_as_specified (v : SemanticVersion) : Prop :=
  let o := checkStandardCompliance v true in
  (Branch v <> None -> reports o "Branch" info)
  /\ (Label v <> None -> reports o "Label" error)
  /\ (Hotfix v <> None -> reports o "Hotfix" error)
  /\ (Outcome.success o = true <->
      forall m, In m (Outcome.messages o) -> type (body m) <> error).

(* ================================================================= *)
(** ** Character sets and shapes used to describe the grammar *)

Fixpoint string_forallb (p : ascii -> bool) (s : string) : bool :=
  match s with
  | EmptyString => true
  | String c s' => p c && string_forallb p s'
  end.

Definition is_digit (c : ascii) : bool :=
  (Nat.leb 48 (nat_of_ascii c) && Nat.leb (nat_of_ascii c) 57)%bool.

Definition is_letter (c : ascii) : bool :=
  ((Nat.leb 65 (nat_of_ascii c) && Nat.leb (nat_of_ascii c) 90)
   || (Nat.leb 97 (nat_of_ascii c) && Nat.leb (nat_of_ascii c) 122))%bool.

(** A letter, a digit or a hyphen. *)
Definition ident_char (c : ascii) : bool :=
  is_digit c || is_letter c || Ascii.eqb c "-".

(** A non-empty run of letters, digits and hyphens. *)
Definition build_identifier (piece : string) : bool :=
  match piece with
  | EmptyString => false
  | String _ _ => string_forallb ident_char piece
  end.

(** The same, not starting with the digit 0. *)
Definition prerelease_identifier (piece : string) : bool :=
  match piece with
  | EmptyString => false
  | String c rest =>
      ident_char c && negb (Ascii.eqb c "0") && string_forallb ident_char rest
  end.

(** A letter, a digit, a dot or a space: what the grammar reads before a
    plus sign. *)
Definition core_char (c : ascii) : bool :=
  is_digit c || is_letter c || Ascii.eqb c "." || Ascii.eqb c " ".

(** Every character up to the first plus sign, if any, is a
    [core_char]. *)
Fixpoint core_until_plus (s : string) : bool :=
  match s with
  | EmptyString => true
  | String c s' =>
      if Ascii.eqb c "+" then true
      else core_char c && core_until_plus s'
  end.

(** The characters some class of a pattern accepts. *)
Fixpoint alphabet (ic : bool) (r : regex) (c : ascii) : bool :=
  match r with
  | Class ranges => class_matches ic ranges c
  | Seq r1 r2 | Alt r1 r2 => alphabet ic r1 c || alphabet ic r2 c
  | Star r' | Named _ r' => alphabet ic r' c
  | Eps | Bol | Eol => false
  end.

(** Whether a pattern can match the empty text, and the characters a
    non-empty match can start with. *)
Fixpoint nullable (r : regex) : bool :=
  match r with
  | Eps | Star _ | Bol | Eol => true
  | Class _ => false
  | Seq r1 r2 => nullable r1 && nullable r2
  | Alt r1 r2 => nullable r1 || nullable r2
  | Named _ r' => nullable r'
  end.

Fixpoint first_char (ic : bool) (r : regex) (c : ascii) : bool :=
  match r with
  | Class ranges => class_matches ic ranges c
  | Seq r1 r2 => first_char ic r1 c || (nullable r1 && first_char ic r2 c)
  | Alt r1 r2 => first_char ic r1 c || first_char ic r2 c
  | Star r' | Named _ r' => first_char ic r' c
  | Eps | Bol | Eol => false
  end.

(** A pattern that starts with [^] and one that ends with [$]. *)
Definition starts_with_Bol (r : regex) : bool :=
  match r with
  | Seq Bol _ => true
  | _ => false
  end.

Fixpoint ends_with_Eol (r : regex) : bool :=
  match r with
  | Eol => true
  | Seq _ r2 => ends_with_Eol r2
  | _ => false
  end.

(** The loop of a star, as [run] unfolds it. *)
Definition star_iter (ic : bool) (r' : regex)
           (k : bool -> string -> option string)
  : nat -> bool -> string -> option string :=
  fix iter (fuel : nat) (bol : bool) (s : string) {struct fuel}
    : option string :=
    match fuel with
    | O => k bol s
    | S fuel' =>
        match RegExp.run ic r' bol s
                (fun b s' =>
                   if Nat.ltb (String.length s') (String.length s)
                   then iter fuel' b s' else None) with
        | Some rest => Some rest
        | None => k bol s
        end
    end.

(** The grammar up to the patch, hotfix and prerelease, and its optional
    build part: [semanticVersionRegex] is the first, then the second, then
    [$]. *)
Definition semver_core : regex :=
  Seqs
    [ Bol;
      Opt (Seq (Named "Label" (Alt (Lit "v") (Alt (Lit "ver") (Lit "version"))))
               (Opt (Chr " ")));
      Named "Major" (Plus digit);
      Chr ".";
      Named "Minor" (Plus digit);
      Chr ".";
      Named "Patch" (Plus digit);
      Opt (Seq (Chr ".") (Named "Hotfix" (Plus digit)));
      Opt (Seq (Chr ".")
               (Named "Prerelease"
                      (Seq (Class [("1", "9"); ("a", "z")]%char)
                           (Star (Class [("0", "9"); ("a", "z"); (".", ".")]%char))))) ].

Definition semver_build : regex :=
  Opt (Seq (Chr "+")
           (Named "Build"
                  (Star (Plus (Class [("0", "9"); ("a", "z");
                                      (".", "."); ("-", "-")]%char))))).

(** Whether [s.match(re)] is an array rather than [null]. *)
Definition matches (re : RegExp.t) (s : string) : bool :=
  match RegExp.match_g re s with
  | Some _ => true
  | None => false
  end.

(** 1.0.0-rc.1, as built from [{ major: 1, minor: 0, patch: 0,
    prerelease: "rc.1" }]. *)
Definition prerelease_version : SemanticVersion :=
  mkVersion None None 1 0 0 None (Some "rc.1") None None.

(** The version [new SemanticVersion()] builds: 0.0.1. *)
Definition default_version (static : option Settings.t) : SemanticVersion :=
  mkVersion None None 0 0 1 None None None static.

(** [{ branch: s, major, minor, patch }] and [{ label: s, major, minor,
    patch }]. *)
Definition branch_fields (s : string) (ma mi pa : Z) : jsval :=
  JObject [ ("branch", JStr s); ("major", JNum (Int ma));
            ("minor", JNum (Int mi)); ("patch", JNum (Int pa)) ].

Definition label_fields (s : string) (ma mi pa : Z) : jsval :=
  JObject [ ("label", JStr s); ("major", JNum (Int ma));
            ("minor", JNum (Int mi)); ("patch", JNum (Int pa)) ].

(* ================================================================= *)
(** ** Regular expressions and strings: lemmas *)

Lemma match_all_nonempty ic fuel r bol s :
  RegExp.search ic r bol s <> None ->
  RegExp.match_all ic (S fuel) r bol s <> [].
Proof.
  intros Hs. simpl.
  destruct (RegExp.search ic r bol s) as [[m rest]|]; [|congruence].
  destruct m; destruct rest; discriminate.
Qed.

Lemma match_g_null_iff re s :
  RegExp.match_g re s = None <->
  RegExp.search (ignoreCase re) (source re) true s = None.
Proof.
  unfold RegExp.match_g. split.
  - intros H.
    destruct (RegExp.search (ignoreCase re) (source re) true s) eqn:E; auto.
    exfalso.
    apply (match_all_nonempty (ignoreCase re) (String.length s) (source re) true s).
    + congruence.
    + destruct (match_all _ _ _ _ _); [reflexivity | discriminate].
  - intros H. simpl. rewrite H. reflexivity.
Qed.

(** The third alternative of the label pattern matches the empty text at
    the end of every string, so a scan always finds a match. *)
Lemma label_search_succeeds (s : string) (bol : bool) :
  RegExp.search true (source labelRegex) bol s <> None.
Proof.
  revert bol. induction s as [|c s IH]; intros bol.
  - destruct bol; vm_compute; discriminate.
  - cbn [RegExp.search].
    destruct (RegExp.match_here true (source labelRegex) bol (String c s)).
    + discriminate.
    + apply IH.
Qed.

Lemma label_match_never_null (k : string) :
  RegExp.match_g labelRegex k <> None.
Proof.
  rewrite match_g_null_iff. apply label_search_succeeds.
Qed.

(** An array of matches has no [groups]. *)
Lemma groups_of_global_match (s : string) (re : RegExp.t) :
  match String_match s re with
  | JNull | JUndefined => JUndefined
  | m => get_prop m "groups"
  end = JUndefined.
Proof.
  unfold String_match. destruct (RegExp.match_g re s); reflexivity.
Qed.

Lemma tryParse_string (static : option Settings.t) (s : string) :
  tryParse static (JStr s) = Ok None.
Proof.
  unfold tryParse.
  change (js_type_eqb (typeof (JStr s)) t_string) with true.
  cbv iota. change (as_string (JStr s)) with s.
  rewrite groups_of_global_match. reflexivity.
Qed.

Lemma new_SemanticVersion_string (static : option Settings.t) (s : string) :
  throws (new_SemanticVersion static (JStr s)) = true.
Proof.
  unfold new_SemanticVersion.
  change (js_type_eqb (typeof (JStr s)) t_string) with true.
  change (js_type_eqb (typeof (JStr s)) t_object) with false.
  rewrite andb_true_r, andb_false_r.
  destruct (truthy (JStr s)); [|reflexivity].
  change (as_string (JStr s)) with s.
  unfold String_match.
  destruct (RegExp.match_g semanticVersionRegex s); reflexivity.
Qed.

(* ================================================================= *)
(** ** The schemas: lemmas *)

Lemma at_path_success {A} (f : string) (p : parsed A) (d : A) :
  at_path f p = success d <-> p = success d.
Proof. destruct p; simpl; split; intros H; congruence. Qed.

Lemma at_path_is_success {A} (f : string) (p : parsed A) :
  is_success (at_path f p) = is_success p.
Proof. destruct p; reflexivity. Qed.

Ltac split_parsed :=
  repeat match goal with
         | |- context [at_path ?f ?p] =>
             let E := fresh "E" in
             destruct (at_path f p) eqn:E;
             [apply at_path_success in E|]
         end.

(** A struct comes out of the schema only when every member validates. *)
Lemma SemanticVersionSchema_success_inv (x : jsval) (d : SemanticVersionStruct) :
  SemanticVersionSchema x = success d ->
  is_object x = true
  /\ BranchSchema (get_prop x "branch") = success (branch d)
  /\ LabelSchema (get_prop x "label") = success (label d)
  /\ MajorVersionSchema (get_prop x "major") = success (major d)
  /\ MinorVersionSchema (get_prop x "minor") = success (minor d)
  /\ PatchVersionSchema (get_prop x "patch") = success (patch d)
  /\ HotfixVersionSchema (get_prop x "hotfix") = success (hotfix d)
  /\ PrereleaseVersionSchema (get_prop x "prerelease") = success (prerelease d)
  /\ BuildVersionSchema (get_prop x "build") = success (build d)
  /\ ComplianceSettingsSchema (get_prop x "complianceSettings")
     = success (complianceSettings d).
Proof.
  unfold SemanticVersionSchema.
  destruct (is_object x); [|discriminate].
  split_parsed; intros H; try discriminate H.
  injection H as <-. simpl. repeat split; assumption.
Qed.

Lemma SemanticVersionSchema_success_intro (x : jsval) b l ma mi pa h pr bu cs :
  is_object x = true ->
  BranchSchema (get_prop x "branch") = success b ->
  LabelSchema (get_prop x "label") = success l ->
  MajorVersionSchema (get_prop x "major") = success ma ->
  MinorVersionSchema (get_prop x "minor") = success mi ->
  PatchVersionSchema (get_prop x "patch") = success pa ->
  HotfixVersionSchema (get_prop x "hotfix") = success h ->
  PrereleaseVersionSchema (get_prop x "prerelease") = success pr ->
  BuildVersionSchema (get_prop x "build") = success bu ->
  ComplianceSettingsSchema (get_prop x "complianceSettings") = success cs ->
  SemanticVersionSchema x = success (mkStruct b l ma mi pa h pr bu cs).
Proof.
  intros Ho Hb Hl Hma Hmi Hpa Hh Hpr Hbu Hcs.
  unfold SemanticVersionSchema.
  rewrite Ho, Hb, Hl, Hma, Hmi, Hpa, Hh, Hpr, Hbu, Hcs. reflexivity.
Qed.

(** A required number that is absent fails the whole object. *)
Lemma SemanticVersionSchema_needs (x : jsval) :
  get_prop x "major" = JUndefined
  \/ get_prop x "minor" = JUndefined
  \/ get_prop x "patch" = JUndefined ->
  is_success (SemanticVersionSchema x) = false.
Proof.
  intros H.
  destruct (SemanticVersionSchema x) as [d|] eqn:E; [|reflexivity].
  apply SemanticVersionSchema_success_inv in E.
  destruct E as (_ & _ & _ & Hma & Hmi & Hpa & _).
  destruct H as [H | [H | H]]; rewrite H in *; discriminate.
Qed.

(** The constructor on an object literal: validation decides. *)
Lemma new_SemanticVersion_object (static : option Settings.t)
      (props : list (string * jsval)) :
  new_SemanticVersion static (JObject props)
  = match SemanticVersionSchema (JObject props) with
    | success d =>
        Ok (fields_of d (match complianceSettings d with
                         | Some cs => Some cs
                         | None => static
                         end))
    | failure es => Throw (ValidationError es)
    end.
Proof. reflexivity. Qed.

Lemma new_SemanticVersion_object_throws (static : option Settings.t)
      (props : list (string * jsval)) :
  is_success (SemanticVersionSchema (JObject props)) = false ->
  exists es, new_SemanticVersion static (JObject props)
             = Throw (ValidationError es).
Proof.
  rewrite new_SemanticVersion_object.
  destruct (SemanticVersionSchema (JObject props)); [discriminate|].
  intros _. eexists. reflexivity.
Qed.

(** Validated data validates again, to itself. *)
Lemma BranchSchema_again x b :
  BranchSchema x = success b -> BranchSchema (js_of_string b) = success b.
Proof.
  destruct x; simpl; try discriminate.
  - intros [= <-]. reflexivity.
  - destruct (String.eqb s "") eqn:E; [discriminate|].
    intros [= <-]. simpl. rewrite E. reflexivity.
Qed.

Lemma LabelSchema_again x l :
  LabelSchema x = success l -> LabelSchema (js_of_string l) = success l.
Proof.
  destruct x; simpl; try discriminate.
  - intros [= <-]. reflexivity.
  - destruct (RegExp.match_g labelRegex s) eqn:E; [|discriminate].
    intros [= <-]. simpl. rewrite E. reflexivity.
Qed.

Lemma MajorVersionSchema_range x z :
  MajorVersionSchema x = success z ->
  x = JNum (Int z) /\ 0 <= z <= MAX_SAFE_INTEGER.
Proof.
  destruct x as [| | |n| | | | | |]; simpl; try discriminate.
  destruct n as [z'| |]; try discriminate.
  destruct (Z.ltb_spec z' 0); [discriminate|].
  destruct (Z.ltb_spec MAX_SAFE_INTEGER z'); [discriminate|].
  intros [= <-]. split; [reflexivity | lia].
Qed.

Lemma MajorVersionSchema_in_range z :
  0 <= z <= MAX_SAFE_INTEGER ->
  MajorVersionSchema (JNum (Int z)) = success z.
Proof.
  intros H. simpl.
  destruct (Z.ltb_spec z 0); [lia|].
  destruct (Z.ltb_spec MAX_SAFE_INTEGER z); [lia|]. reflexivity.
Qed.

Lemma MajorVersionSchema_again x z :
  MajorVersionSchema x = success z ->
  MajorVersionSchema (JNum (Int z)) = success z.
Proof.
  intros H. apply MajorVersionSchema_range in H as [_ H].
  apply MajorVersionSchema_in_range, H.
Qed.

Lemma HotfixVersionSchema_again x h :
  HotfixVersionSchema x = success h ->
  HotfixVersionSchema (js_of_Z h) = success h.
Proof.
  unfold HotfixVersionSchema.
  destruct (MajorVersionSchema x) as [z|] eqn:E.
  - apply MajorVersionSchema_again in E.
    destruct x; intros [= <-]; try reflexivity;
      simpl js_of_Z; cbv iota; rewrite E; reflexivity.
  - destruct x; intros H; try discriminate H.
    injection H as <-. reflexivity.
Qed.

Lemma PrereleaseVersionSchema_again x p :
  PrereleaseVersionSchema x = success p ->
  PrereleaseVersionSchema (js_of_string p) = success p.
Proof.
  destruct x; simpl; try discriminate.
  - intros [= <-]. reflexivity.
  - destruct (every_piece_matches alphaNumericWithPrefixRuleRegex s) eqn:E;
      [|discriminate].
    intros [= <-]. simpl. rewrite E. reflexivity.
Qed.

Lemma BuildVersionSchema_again x p :
  BuildVersionSchema x = success p ->
  BuildVersionSchema (js_of_string p) = success p.
Proof.
  destruct x; simpl; try discriminate.
  - intros [= <-]. reflexivity.
  - destruct (every_piece_matches alphaNumericRegex s) eqn:E; [|discriminate].
    intros [= <-]. simpl. rewrite E. reflexivity.
Qed.

Lemma RuleSchema_again kind x r :
  RuleSchema kind x = Some r -> RuleSchema kind (js_of_rule r) = Some r.
Proof.
  destruct kind, x as [| | |n| | | | | |]; simpl; try discriminate;
    try (intros [= <-]; reflexivity);
    destruct n; try discriminate; intros [= <-]; reflexivity.
Qed.

Lemma RulesSchema_again kind xs : forall rs,
  RulesSchema kind xs = Some rs ->
  RulesSchema kind (map js_of_rule rs) = Some rs.
Proof.
  induction xs as [|x xs IH]; intros rs; simpl.
  - intros [= <-]. reflexivity.
  - destruct (RuleSchema kind x) as [r|] eqn:Er; [|discriminate].
    destruct (RulesSchema kind xs) as [rs'|]; [|discriminate].
    intros [= <-]. simpl.
    rewrite (RuleSchema_again _ _ _ Er), (IH rs' eq_refl). reflexivity.
Qed.

Lemma SettingSchema_again kind x s :
  SettingSchema kind x = success s ->
  SettingSchema kind (js_of_setting s) = success s.
Proof.
  destruct x as [| | | |k| | |xs| |]; simpl; try discriminate.
  - intros [= <-]. reflexivity.
  - destruct (String.eqb k "required"); [intros [= <-]; reflexivity|].
    destruct (String.eqb k "optional"); [intros [= <-]; reflexivity|].
    destruct (String.eqb k "forbidden"); [intros [= <-]; reflexivity|].
    discriminate.
  - destruct (RulesSchema kind xs) as [rs|] eqn:E; [|discriminate].
    intros [= <-]. simpl. rewrite (RulesSchema_again _ _ _ E). reflexivity.
Qed.

Lemma ComplianceSettingsSchema_success_inv x cs :
  ComplianceSettingsSchema x = success (Some cs) ->
  SettingSchema string_literals (get_prop x "Branch") = success (Settings.Branch cs)
  /\ SettingSchema string_literals (get_prop x "Label") = success (Settings.Label cs)
  /\ SettingSchema number_literals (get_prop x "Hotfix") = success (Settings.Hotfix cs)
  /\ SettingSchema string_literals (get_prop x "Prerelease")
     = success (Settings.Prerelease cs)
  /\ SettingSchema string_literals (get_prop x "Build") = success (Settings.Build cs).
Proof.
  unfold ComplianceSettingsSchema.
  destruct x; try discriminate; cbv beta iota delta [is_object];
    split_parsed; intros H; try discriminate H;
    injection H as <-; simpl; repeat split; assumption.
Qed.

Lemma ComplianceSettingsSchema_again x o :
  ComplianceSettingsSchema x = success o ->
  ComplianceSettingsSchema (js_of_settings_opt o) = success o.
Proof.
  destruct o as [cs|]; [|reflexivity].
  intros H. apply ComplianceSettingsSchema_success_inv in H.
  destruct H as (Hb & Hl & Hh & Hp & Hu).
  apply SettingSchema_again in Hb, Hl, Hh, Hp, Hu.
  destruct cs as [b l h p u]. simpl in *.
  unfold ComplianceSettingsSchema, js_of_settings_opt, js_of_settings.
  cbn [is_object get_prop lookup String.eqb Ascii.eqb Bool.eqb Settings.Branch
       Settings.Label Settings.Hotfix Settings.Prerelease Settings.Build].
  rewrite Hb, Hl, Hh, Hp, Hu. reflexivity.
Qed.

Lemma SemanticVersionSchema_again x d :
  SemanticVersionSchema x = success d ->
  SemanticVersionSchema (js_of_struct d) = success d.
Proof.
  intros H. apply SemanticVersionSchema_success_inv in H.
  destruct H as (_ & Hb & Hl & Hma & Hmi & Hpa & Hh & Hpr & Hbu & Hcs).
  destruct d as [b l ma mi pa h pr bu cs]. simpl in *.
  apply SemanticVersionSchema_success_intro;
    cbn [js_of_struct is_object get_prop lookup String.eqb Ascii.eqb Bool.eqb
         branch label major minor patch hotfix prerelease build
         complianceSettings];
    eauto using BranchSchema_again, LabelSchema_again, MajorVersionSchema_again,
      HotfixVersionSchema_again, PrereleaseVersionSchema_again,
      BuildVersionSchema_again, ComplianceSettingsSchema_again.
Qed.

(* ================================================================= *)
(** ** Parsing and rendering *)

(** C1 (rendering then parsing): the claim that parsing the rendering of a
    version gives the version back does not hold of the code.  [tryParse]
    reads [groups] off the array a [g]-flagged [match] returns, which has
    none, so the rendering of every version parses to [undefined] and the
    constructor throws on it; shown on the version built from
    [{ major: 1, minor: 2, patch: 3 }] and for every version. *)
Theorem parse_of_rendering_is_undefined :
  new_SemanticVersion None plain_fields = Ok plain_version
  /\ toString plain_version = "1.2.3"
  /\ tryParse None (JStr "1.2.3") = Ok None
  /\ (forall static v, tryParse static (JStr (toString v)) = Ok None)
  /\ (forall static v,
         throws (new_SemanticVersion static (JStr (toString v))) = true).
Proof.
  split; [reflexivity|]. split; [reflexivity|]. split; [reflexivity|].
  split; intros static v.
  - apply tryParse_string.
  - apply new_SemanticVersion_string.
Qed.

(** C2 (the release scenario): the version with branch "release", 2.0.0,
    hotfix 5, prerelease "beta.1" and build "build.007" can be built from
    its fields and renders as "release 2.0.0.5-beta.1+build.007", but that
    string is not parsed: the pattern has no branch and no hyphen, so it
    does not match; [tryParse] returns [undefined] and the constructor
    throws. *)
Theorem release_string_is_not_parsed :
  new_SemanticVersion None release_fields = Ok release_version
  /\ toString release_version = "release 2.0.0.5-beta.1+build.007"
  /\ RegExp.match_g semanticVersionRegex "release 2.0.0.5-beta.1+build.007"
     = None
  /\ (forall static,
         tryParse static (JStr "release 2.0.0.5-beta.1+build.007") = Ok None)
  /\ (forall static,
         new_SemanticVersion static (JStr "release 2.0.0.5-beta.1+build.007")
         = Throw InvalidSemanticVersionString).
Proof.
  split; [vm_compute; reflexivity|]. split; [vm_compute; reflexivity|].
  split; [vm_compute; reflexivity|].
  split; intros static.
  - apply tryParse_string.
  - vm_compute. reflexivity.
Qed.

(** Even with the branch and the hyphen left out, and although the
    pattern then matches, nothing is parsed. *)
Lemma matching_string_is_not_parsed (static : option Settings.t) :
  RegExp.match_g semanticVersionRegex "v2.0.0.5.beta.1+build.007"
  = Some ["v2.0.0.5.beta.1+build.007"]
  /\ tryParse static (JStr "v2.0.0.5.beta.1+build.007") = Ok None
  /\ throws (new_SemanticVersion static (JStr "v2.0.0.5.beta.1+build.007"))
     = true.
Proof.
  split; [vm_compute; reflexivity|]. split.
  - apply tryParse_string.
  - apply new_SemanticVersion_string.
Qed.

(** C8 (labels): the label schema accepts every string, not only the
    empty one and v, ver, version: the last alternative of its pattern
    matches the empty text at the end of any string.  A version labelled
    "foo" is constructed. *)
Theorem LabelSchema_accepts_every_string :
  (forall k, LabelSchema (JStr k) = success (Some k))
  /\ LabelSchema (JStr "foo") = success (Some "foo")
  /\ new_SemanticVersion None foo_label_fields
     = Ok (mkVersion None (Some "foo") 1 0 0 None None None None).
Proof.
  split; [|split; vm_compute; reflexivity].
  intros k. unfold LabelSchema.
  destruct (RegExp.match_g labelRegex k) eqn:E; [reflexivity|].
  exfalso. exact (label_match_never_null k E).
Qed.

(* ================================================================= *)
(** ** The change and increment methods *)

Ltac spread_throws side :=
  unfold changeBranch, changeLabel, changeMajor, changeMinor, changePatch,
    changeHotfix, changePrerelease, changeBuild,
    incrementMinor, incrementPatch, incrementHotfix, spread_with;
  apply new_SemanticVersion_object_throws, SemanticVersionSchema_needs;
  side; reflexivity.

(** C3 (increments): [incrementMinor], [incrementPatch] and
    [incrementHotfix] do not return a version.  The object they pass to the
    constructor spreads [this], whose own properties are the underscored
    private fields, so it has no [major] (nor [minor], for the last two) and
    validation fails: each of them throws on every version.
    [incrementMajor] supplies all three numbers and does return major+1.0.0
    with hotfix, prerelease and build absent, as on 1.2.3. *)
Theorem increment_minor_patch_hotfix_throw :
  (forall static this,
      (exists es, incrementMinor static this = Throw (ValidationError es))
      /\ (exists es, incrementPatch static this = Throw (ValidationError es))
      /\ (exists es, incrementHotfix static this = Throw (ValidationError es)))
  /\ throws (incrementMinor None release_version) = true
  /\ incrementMajor None release_version
     = Ok (mkVersion None None 3 0 0 None None None None).
Proof.
  split; [|split; vm_compute; reflexivity].
  intros static this. repeat split; spread_throws ltac:(left).
Qed.

(** What [incrementMajor] does return while major+1 is a safe integer;
    branch and label are not carried over, and the settings are the static
    default of the moment. *)
Lemma incrementMajor_resets (static : option Settings.t) (this : SemanticVersion) :
  0 <= Major this + 1 <= MAX_SAFE_INTEGER ->
  incrementMajor static this
  = Ok (mkVersion None None (Major this + 1) 0 0 None None None static).
Proof.
  intros H. unfold incrementMajor, spread_with.
  rewrite new_SemanticVersion_object.
  rewrite (SemanticVersionSchema_success_intro _ None None (Major this + 1)
             0 0 None None None None);
    try reflexivity.
  apply MajorVersionSchema_in_range, H.
Qed.

(** At the largest safe integer the sum is no longer safe and the
    constructor rejects it. *)
Lemma incrementMajor_beyond_safe (static : option Settings.t)
      (this : SemanticVersion) :
  Major this = MAX_SAFE_INTEGER ->
  exists es, incrementMajor static this = Throw (ValidationError es).
Proof.
  intros H. unfold incrementMajor, spread_with.
  apply new_SemanticVersion_object_throws.
  match goal with
  | |- is_success (SemanticVersionSchema ?x) = false =>
      destruct (SemanticVersionSchema x) as [d|] eqn:E; [|reflexivity]
  end.
  apply SemanticVersionSchema_success_inv in E.
  destruct E as (_ & _ & _ & Hma & _).
  apply MajorVersionSchema_range in Hma as [Hx Hr].
  cbn in Hx. injection Hx as Hx. lia.
Qed.

(** C4 (field replacement): no [changeX] returns a version.  Each passes
    [{ ...this, x }] to the constructor; the spread copies the underscored
    private fields, so of [major], [minor] and [patch] at most the one being
    changed is there, validation fails and the method throws, whatever the
    version and the value. *)
Theorem change_methods_throw (static : option Settings.t)
        (this : SemanticVersion) :
  (forall b, exists es, changeBranch static this b = Throw (ValidationError es))
  /\ (forall l, exists es, changeLabel static this l = Throw (ValidationError es))
  /\ (forall n, exists es, changeMajor static this n = Throw (ValidationError es))
  /\ (forall n, exists es, changeMinor static this n = Throw (ValidationError es))
  /\ (forall n, exists es, changePatch static this n = Throw (ValidationError es))
  /\ (forall h, exists es, changeHotfix static this h = Throw (ValidationError es))
  /\ (forall p, exists es,
         changePrerelease static this p = Throw (ValidationError es))
  /\ (forall b, exists es, changeBuild static this b = Throw (ValidationError es)).
Proof.
  repeat split; intros x;
    first [ spread_throws ltac:(left)
          | spread_throws ltac:(right; left)
          | spread_throws ltac:(right; right) ].
Qed.

Example changeMajor_on_1_2_3 :
  changeMajor None plain_version (Int 5)
  = Throw (ValidationError [ mkIssue ["minor"] invalid_type;
                             mkIssue ["patch"] invalid_type ]).
Proof. reflexivity. Qed.

(* ================================================================= *)
(** ** [tryParse] *)

Lemma tryParse_object (static : option Settings.t) (input : jsval) :
  typeof input = t_object -> input <> JNull ->
  tryParse static input
  = match SemanticVersionSchema input with
    | success d =>
        Ok (Some (fields_of d (match complianceSettings d with
                               | Some cs => Some cs
                               | None => static
                               end)))
    | failure _ => Ok None
    end.
Proof.
  intros Ht Hn. unfold tryParse. rewrite Ht. cbn [js_type_eqb andb].
  replace (match input with JNull | JUndefined => false | _ => true end)
    with true
    by (destruct input; simpl in Ht; try discriminate Ht; try reflexivity;
        congruence).
  replace (truthy input) with true
    by (destruct input; simpl in Ht; try discriminate Ht; try reflexivity;
        congruence).
  destruct (SemanticVersionSchema input) as [d|es] eqn:E; [|reflexivity].
  change (truthy (js_of_struct d)) with true. cbv iota.
  unfold js_of_struct at 1. rewrite new_SemanticVersion_object.
  fold (js_of_struct d).
  rewrite (SemanticVersionSchema_again _ _ E). reflexivity.
Qed.

Lemma tryParse_not_object (static : option Settings.t) (input : jsval) :
  typeof input <> t_object \/ input = JNull ->
  tryParse static input = Ok None.
Proof.
  intros [H | ->]; [|reflexivity].
  destruct input; try reflexivity; try (exfalso; apply H; reflexivity).
  apply tryParse_string.
Qed.

Lemma tryParse_invalid (static : option Settings.t) (input : jsval) :
  is_success (SemanticVersionSchema input) = false ->
  tryParse static input = Ok None.
Proof.
  intros H.
  destruct (js_type_eqb (typeof input) t_object) eqn:Ht.
  - destruct input; try discriminate Ht; try reflexivity;
      (rewrite tryParse_object by (reflexivity || discriminate);
       destruct (SemanticVersionSchema _); [discriminate H | reflexivity]).
  - apply tryParse_not_object. left. intros E. rewrite E in Ht. discriminate.
Qed.

Lemma is_object_typeof (x : jsval) :
  is_object x = true -> typeof x = t_object /\ x <> JNull.
Proof. destruct x; try discriminate; split; (reflexivity || discriminate). Qed.

(** C10 ([tryParse] is total): [tryParse] returns on every input and never
    throws.  It returns [undefined] on every string (so on every string the
    grammar rejects), on every input that fails structural validation, and
    on every value that is neither a string nor an object; and a version it
    returns holds exactly the validated fields of the input. *)
Theorem tryParse_never_throws (static : option Settings.t) (input : jsval) :
  exists r,
    tryParse static input = Ok r
    /\ (typeof input = t_string -> r = None)
    /\ (is_success (SemanticVersionSchema input) = false -> r = None)
    /\ (typeof input <> t_string -> typeof input <> t_object -> r = None)
    /\ (forall v, r = Some v ->
          exists d, SemanticVersionSchema input = success d
                    /\ v = fields_of d (match complianceSettings d with
                                        | Some cs => Some cs
                                        | None => static
                                        end)).
Proof.
  destruct (SemanticVersionSchema input) as [d|es] eqn:E.
  - pose proof (SemanticVersionSchema_success_inv _ _ E) as (Ho & _).
    apply is_object_typeof in Ho as [Ht Hn].
    exists (Some (fields_of d (match complianceSettings d with
                               | Some cs => Some cs
                               | None => static
                               end))).
    split; [rewrite tryParse_object, E by assumption; reflexivity|].
    split; [intros H; rewrite Ht in H; discriminate|].
    split; [discriminate|].
    split; [intros _ H; contradiction|].
    intros v [= <-]. exists d. split; reflexivity.
  - exists None.
    split; [apply tryParse_invalid; rewrite E; reflexivity|].
    repeat split; try reflexivity. discriminate.
Qed.

Lemma tryParse_never_throws_witness :
  tryParse None (JStr "1.2") = Ok None
  /\ tryParse None (JNum (Int 7)) = Ok None
  /\ tryParse None (JObject [("major", JStr "1")]) = Ok None.
Proof.
  split; [|split].
  - destruct (tryParse_never_throws None (JStr "1.2")) as (r & Hr & Hs & _).
    rewrite Hr, (Hs eq_refl). reflexivity.
  - destruct (tryParse_never_throws None (JNum (Int 7)))
      as (r & Hr & _ & _ & Hn & _).
    rewrite Hr, Hn; [reflexivity | discriminate | discriminate].
  - destruct (tryParse_never_throws None (JObject [("major", JStr "1")]))
      as (r & Hr & _ & Hf & _).
    rewrite Hr, Hf; reflexivity.
Defined.

(* ================================================================= *)
(** ** Custom compliance: the [required] setting *)

(** Under [required] a string-typed field passes exactly when it is a
    non-empty string that trims to nothing. *)
Lemma required_string_field (key : Key) (v : SemanticVersion)
      (cs : Settings.t) :
  key <> KHotfix ->
  ComplianceSettings v = Some cs ->
  setting_of key cs = required ->
  exists rep,
    checkCustomComplianceForSingleSetting key v = Ok rep
    /\ Report.success rep
       = match field_value key v with
         | JStr s => negb (String.eqb s "")
                     && negb (Nat.ltb 0 (String.length (JsString.trim s)))
         | _ => false
         end.
Proof.
  intros Hk Hcs Hreq. unfold checkCustomComplianceForSingleSetting.
  rewrite Hcs, Hreq.
  assert (Hv : exists o, field_value key v = js_of_string o)
    by (destruct key; try contradiction; eexists; reflexivity).
  destruct Hv as [o Hv]. rewrite Hv.
  replace (match key with KHotfix => t_number | _ => t_string end)
    with t_string by (destruct key; try reflexivity; contradiction).
  destruct o as [s|]; simpl.
  - destruct (String.eqb s ""); simpl.
    + eexists; split; reflexivity.
    + destruct (Nat.ltb 0 (String.length (JsString.trim s)));
        eexists; split; reflexivity.
  - eexists; split; reflexivity.
Qed.

(** Under [required] the Hotfix field never passes. *)
Lemma required_hotfix_always_violates (v : SemanticVersion) (cs : Settings.t) :
  ComplianceSettings v = Some cs ->
  Settings.Hotfix cs = required ->
  checkCustomComplianceForSingleSetting KHotfix v
  = Ok (Report.mk KHotfix false
          [mkMessage "Semantic Version Setting Hotfix is required" error]).
Proof.
  intros Hcs Hreq. unfold checkCustomComplianceForSingleSetting.
  rewrite Hcs. simpl setting_of. rewrite Hreq. simpl.
  rewrite orb_true_r. reflexivity.
Qed.

(** C6 (the [required] setting): a field that is present with a non-empty
    value does not pass [required].  The version with branch "main" and
    hotfix 5, built with Branch and Hotfix required, gets a violation for
    both fields and is not custom-compliant; the test on the trimmed length
    is the wrong way round, and the numeric case is a constant.  A branch
    of one space, on the other hand, passes. *)
Theorem required_rejects_present_values :
  new_SemanticVersion None governed_fields = Ok governed_version
  /\ checkCustomComplianceForSingleSetting KBranch governed_version
     = Ok (Report.mk KBranch false
             [mkMessage "Semantic Version Setting Branch is required" error])
  /\ checkCustomComplianceForSingleSetting KHotfix governed_version
     = Ok (Report.mk KHotfix false
             [mkMessage "Semantic Version Setting Hotfix is required" error])
  /\ isCustomCompliant governed_version = Ok false
  /\ checkCustomComplianceForSingleSetting KBranch
       (mkVersion (Some " ") None 1 0 0 None None None
                  (Some (require_only KBranch)))
     = Ok (Report.mk KBranch true []).
Proof. repeat split; vm_compute; reflexivity. Qed.

(* ================================================================= *)
(** ** Standard compliance in strict mode *)

Lemma no_error_iff (ms : list FieldMessage) :
  negb (existsb (fun m => severity_eqb (type (body m)) error) ms) = true
  <-> forall m, In m ms -> type (body m) <> error.
Proof.
  rewrite negb_true_iff. split.
  - intros H m Hin Herr.
    assert (existsb (fun m => severity_eqb (type (body m)) error) ms = true).
    { apply existsb_exists. exists m. split; [assumption|].
      rewrite Herr. reflexivity. }
    congruence.
  - intros H.
    destruct (existsb _ ms) eqn:E; [|reflexivity].
    apply existsb_exists in E as (m & Hin & Hm).
    exfalso. apply (H m Hin).
    destruct (type (body m)); (reflexivity || discriminate).
Qed.

Lemma success_iff_no_error (v : SemanticVersion) (strict : bool) :
  Outcome.success (checkStandardCompliance v strict) = true
  <-> forall m, In m (Outcome.messages (checkStandardCompliance v strict)) ->
                type (body m) <> error.
Proof. apply no_error_iff. Qed.

(** C7, the claim as worded fails at two versions the constructor builds.
    In strict mode the message for the present branch of
    [{ branch: "main", major: 1, minor: 0, patch: 0 }] has severity "error",
    and there is no "info" message for Branch; and the present but empty
    label of [{ label: "", major: 1, minor: 0, patch: 0 }] gets no message
    at all. *)
Lemma strict_severities_not_as_specified :
  new_SemanticVersion None main_fields = Ok main_version
  /\ ~ strict_severities_as_specified main_version
  /\ new_SemanticVersion None empty_label_fields = Ok empty_label_version
  /\ ~ strict_severities_as_specified empty_label_version.
Proof.
  split; [vm_compute; reflexivity|]. split; [|split; [vm_compute; reflexivity|]].
  - intros (Hb & _).
    destruct Hb as (m & Hin & Hf & Ht); [discriminate|].
    vm_compute in Hin.
    destruct Hin as [<- | [<- | []]]; discriminate.
  - intros (_ & Hl & _).
    destruct Hl as (m & Hin & Hf & Ht); [discriminate|].
    vm_compute in Hin.
    destruct Hin as [<- | [<- | []]]; discriminate.
Qed.

(** C7, amended (strict mode): a present branch is reported with severity
    "error" and an absent one with "info", exactly as the hotfix is; a
    present, non-empty label is reported with "error"; and the check
    succeeds exactly when no message has severity "error". *)
Theorem strict_severities (v : SemanticVersion) :
  (Branch v <> None ->
   reports (checkStandardCompliance v true) "Branch" error)
  /\ (Branch v = None ->
      reports (checkStandardCompliance v true) "Branch" info)
  /\ (forall l, Label v = Some l -> l <> "" ->
      reports (checkStandardCompliance v true) "Label" error)
  /\ (Hotfix v <> None ->
      reports (checkStandardCompliance v true) "Hotfix" error)
  /\ (Hotfix v = None ->
      reports (checkStandardCompliance v true) "Hotfix" info)
  /\ (Outcome.success (checkStandardCompliance v true) = true <->
      forall m, In m (Outcome.messages (checkStandardCompliance v true)) ->
                type (body m) <> error).
Proof.
  unfold reports, checkStandardCompliance.
  cbn [Outcome.messages Outcome.success andb].
  repeat split.
  - intros H. eexists. split.
    + apply in_flat_map. eexists. split; [left; reflexivity|left; reflexivity].
    + destruct (Branch v); [split; reflexivity | contradiction].
  - intros H. eexists. split.
    + apply in_flat_map. eexists. split; [left; reflexivity|left; reflexivity].
    + rewrite H. split; reflexivity.
  - intros l Hl Hne. eexists. split.
    + apply in_flat_map. eexists. split; [right; left; reflexivity|].
      rewrite Hl. simpl.
      destruct (String.eqb_spec l ""); [contradiction|].
      left; reflexivity.
    + split; reflexivity.
  - intros H. eexists. split.
    + apply in_flat_map. eexists.
      split; [do 5 right; left; reflexivity|left; reflexivity].
    + destruct (Hotfix v); [split; reflexivity | contradiction].
  - intros H. eexists. split.
    + apply in_flat_map. eexists.
      split; [do 5 right; left; reflexivity|left; reflexivity].
    + rewrite H. split; reflexivity.
  - apply no_error_iff.
  - apply no_error_iff.
Qed.

Lemma strict_severities_witness :
  reports (checkStandardCompliance main_version true) "Branch" error
  /\ reports (checkStandardCompliance main_version true) "Hotfix" info.
Proof.
  destruct (strict_severities main_version) as (Hb & _ & _ & _ & Hh & _).
  split; [apply Hb; discriminate | apply Hh; reflexivity].
Defined.

(* ================================================================= *)
(** ** Settings are captured at construction *)

Lemma step_keeps_instances (rt rt' : Runtime) :
  step rt rt' ->
  forall ref v, nth_error (instances rt) ref = Some v ->
                nth_error (instances rt') ref = Some v.
Proof.
  intros Hs ref v Hv. destruct Hs as [settings rt | initializer rt].
  - exact Hv.
  - unfold construct.
    destruct (new_SemanticVersion (static_complianceSettings rt) initializer);
      simpl; [|exact Hv].
    rewrite nth_error_app1; [exact Hv|].
    apply nth_error_Some. congruence.
Qed.

Lemma steps_keep_instances (rt rt' : Runtime) :
  steps rt rt' ->
  forall ref v, nth_error (instances rt) ref = Some v ->
                nth_error (instances rt') ref = Some v.
Proof.
  induction 1 as [rt | rt1 rt2 rt3 Hstep _ IH]; intros ref v Hv.
  - exact Hv.
  - apply IH. eapply step_keeps_instances; eassumption.
Qed.

Lemma explicit_settings_are_parsed (x : jsval) (o : option Settings.t) :
  ComplianceSettingsSchema x = success o ->
  is_undefined x = false ->
  exists cs, o = Some cs.
Proof.
  unfold ComplianceSettingsSchema.
  destruct x; try discriminate; cbv beta iota delta [is_object];
    split_parsed; intros H; try discriminate H;
    injection H as <-; intros _; eexists; reflexivity.
Qed.

(** An initializer that carries [complianceSettings] and is accepted is an
    object that validated, and the instance holds the settings validation
    produced, whatever the static default. *)
Lemma constructed_with_explicit_settings (static : option Settings.t)
      (initializer : jsval) (v : SemanticVersion) :
  new_SemanticVersion static initializer = Ok v ->
  is_undefined (get_prop initializer "complianceSettings") = false ->
  exists cs,
    ComplianceSettingsSchema (get_prop initializer "complianceSettings")
    = success (Some cs)
    /\ ComplianceSettings v = Some cs.
Proof.
  intros Hnew Hexp.
  destruct initializer; try discriminate Hexp.
  rewrite new_SemanticVersion_object in Hnew.
  destruct (SemanticVersionSchema (JObject props)) as [d|] eqn:E;
    [|discriminate].
  injection Hnew as <-.
  apply SemanticVersionSchema_success_inv in E.
  destruct E as (_ & _ & _ & _ & _ & _ & _ & _ & _ & Hcs).
  destruct (explicit_settings_are_parsed _ _ Hcs Hexp) as [cs Ho].
  exists cs. rewrite Ho in *. split; [assumption | reflexivity].
Qed.

(** C9 (settings are fixed at construction): a version constructed with
    explicitly supplied settings holds the validated form of those
    settings, and it is still the same instance, with the same settings,
    after [setDefaultComplianceSettings] and after any further sequence of
    operations. *)
Theorem settings_fixed_at_construction
        (rt rt' : Runtime) (initializer : jsval) (ref : nat) :
  construct initializer rt = (rt', Ok ref) ->
  is_undefined (get_prop initializer "complianceSettings") = false ->
  exists v cs,
    nth_error (instances rt') ref = Some v
    /\ ComplianceSettingsSchema (get_prop initializer "complianceSettings")
       = success (Some cs)
    /\ ComplianceSettings v = Some cs
    /\ (forall settings,
           nth_error (instances (setDefaultComplianceSettings settings rt')) ref
           = Some v)
    /\ (forall rt'', steps rt' rt'' ->
                     nth_error (instances rt'') ref = Some v).
Proof.
  unfold construct. intros Hc Hexp.
  destruct (new_SemanticVersion (static_complianceSettings rt) initializer)
    as [v|] eqn:Hnew; [|discriminate].
  injection Hc as <- <-.
  destruct (constructed_with_explicit_settings _ _ _ Hnew Hexp)
    as (cs & Hparsed & Hcs).
  assert (Hv : nth_error (instances rt ++ [v]) (List.length (instances rt))
               = Some v).
  { rewrite nth_error_app2 by apply Nat.le_refl.
    rewrite Nat.sub_diag. reflexivity. }
  exists v, cs. repeat split; try assumption.
  - intros settings. exact Hv.
  - intros rt'' Hsteps. eapply steps_keep_instances; eassumption.
Qed.

Lemma settings_fixed_at_construction_witness :
  exists v,
    nth_error (instances (setDefaultComplianceSettings (require_only KBuild)
                            (fst (construct governed_fields
                                            (mkRuntime None []))))) 0%nat
    = Some v
    /\ ComplianceSettings v = Some governed_settings.
Proof.
  destruct (settings_fixed_at_construction
              (mkRuntime None [])
              (fst (construct governed_fields (mkRuntime None [])))
              governed_fields 0%nat)
    as (v & cs & Hv & Hp & Hcs & Hset & _).
  - vm_compute. reflexivity.
  - reflexivity.
  - exists v. split; [apply Hset|].
    rewrite Hcs. vm_compute in Hp. injection Hp as <-. reflexivity.
Defined.

(* ================================================================= *)
(** ** Constructed versions are well formed *)

Lemma standard_compliant_intro (v : SemanticVersion) :
  is_success (BranchSchema (js_of_string (Branch v))) = true ->
  is_success (LabelSchema (js_of_string (Label v))) = true ->
  is_success (MajorVersionSchema (JNum (Int (Major v)))) = true ->
  is_success (MinorVersionSchema (JNum (Int (Minor v)))) = true ->
  is_success (PatchVersionSchema (JNum (Int (Patch v)))) = true ->
  is_success (HotfixVersionSchema (js_of_Z (Hotfix v))) = true ->
  is_success (PrereleaseVersionSchema (js_of_string (Prerelease v))) = true ->
  is_success (BuildVersionSchema (js_of_string (Build v))) = true ->
  isStandardCompliant v false = true.
Proof.
  intros Hb Hl Hma Hmi Hpa Hh Hpr Hbu.
  unfold isStandardCompliant, checkStandardCompliance, unless_valid.
  cbn [andb]. rewrite Hb, Hl, Hma, Hmi, Hpa, Hh, Hpr, Hbu. reflexivity.
Qed.

Lemma validated_is_standard_compliant (x : jsval) (d : SemanticVersionStruct)
      (cs : option Settings.t) :
  SemanticVersionSchema x = success d ->
  isStandardCompliant (fields_of d cs) false = true.
Proof.
  intros H. apply SemanticVersionSchema_success_inv in H.
  destruct H as (_ & Hb & Hl & Hma & Hmi & Hpa & Hh & Hpr & Hbu & _).
  apply standard_compliant_intro;
    unfold Branch, Label, Major, Minor, Patch, Hotfix, Prerelease, Build,
      fields_of, MinorVersionSchema, PatchVersionSchema in *;
    cbn [_branch _label _major _minor _patch _hotfix _prerelease _build].
  - now rewrite (BranchSchema_again _ _ Hb).
  - now rewrite (LabelSchema_again _ _ Hl).
  - now rewrite (MajorVersionSchema_again _ _ Hma).
  - now rewrite (MajorVersionSchema_again _ _ Hmi).
  - now rewrite (MajorVersionSchema_again _ _ Hpa).
  - now rewrite (HotfixVersionSchema_again _ _ Hh).
  - now rewrite (PrereleaseVersionSchema_again _ _ Hpr).
  - now rewrite (BuildVersionSchema_again _ _ Hbu).
Qed.

(** Every version the constructor returns passes the non-strict standard
    check: its fields satisfy their schemas. *)
Lemma constructed_is_standard_compliant (static : option Settings.t)
      (initializer : jsval) (v : SemanticVersion) :
  new_SemanticVersion static initializer = Ok v ->
  isStandardCompliant v false = true.
Proof.
  intros H.
  destruct initializer as [| |b|n|s| |re|xs|props|v0];
    try (unfold new_SemanticVersion in H; cbn [typeof js_type_eqb] in H;
         rewrite ?andb_false_r in H; cbv iota in H;
         first [discriminate H | injection H as <-; reflexivity]).
  - pose proof (new_SemanticVersion_string static s) as Ht.
    rewrite H in Ht. discriminate.
  - rewrite new_SemanticVersion_object in H.
    destruct (SemanticVersionSchema (JObject props)) eqn:E; [|discriminate].
    injection H as <-. eapply validated_is_standard_compliant, E.
Qed.

Lemma standard_compliant_branch_nonempty (v : SemanticVersion) :
  isStandardCompliant v false = true -> Branch v <> Some "".
Proof.
  intros H Hb.
  unfold isStandardCompliant, checkStandardCompliance in H.
  rewrite Hb in H. discriminate H.
Qed.

(* ================================================================= *)
(** ** Precedence *)


Lemma option_Z_eqb_spec (a b : option Z) :
  reflect (a = b) (option_Z_eqb a b).
Proof.
  destruct a as [x|], b as [y|]; simpl; try (constructor; congruence).
  destruct (Z.eqb_spec x y); constructor; congruence.
Qed.

Section PrecedenceLaws.
Variable localeCompare : string -> string -> Z.

(** What the comparator needs of the host's collation: swapping the
    arguments flips the sign, and it is transitive. *)
Hypothesis localeCompare_antisym :
  forall x y, Z.sgn (localeCompare x y) = - Z.sgn (localeCompare y x).
Hypothesis localeCompare_trans :
  forall x y z, localeCompare x y <= 0 -> localeCompare y z <= 0 ->
                localeCompare x z <= 0.








End PrecedenceLaws.








(* ================================================================= *)
(** ** The matcher: what a successful run tells *)

Lemma run_Star (ic : bool) (r' : regex) bol s k :
  RegExp.run ic (Star r') bol s k = star_iter ic r' k (String.length s) bol s.
Proof. reflexivity. Qed.

Lemma string_forallb_app (p : ascii -> bool) (s1 s2 : string) :
  string_forallb p (s1 ++ s2) = string_forallb p s1 && string_forallb p s2.
Proof.
  induction s1 as [|c s1 IH]; simpl; [reflexivity|].
  rewrite IH, andb_assoc. reflexivity.
Qed.

Lemma string_forallb_impl (p q : ascii -> bool) (s : string) :
  (forall c, p c = true -> q c = true) ->
  string_forallb p s = true -> string_forallb q s = true.
Proof.
  intros Hpq. induction s as [|c s IH]; simpl; [reflexivity|].
  intros H. apply andb_true_iff in H as [Hc Hs].
  rewrite (Hpq _ Hc), (IH Hs). reflexivity.
Qed.

(** A successful run consumed a prefix made of characters of the
    pattern's classes and got its result from the continuation. *)
Lemma run_consumes (ic : bool) (r : regex) :
  forall bol s k rest,
    RegExp.run ic r bol s k = Some rest ->
    exists s1 s2 b,
      s = s1 ++ s2
      /\ string_forallb (alphabet ic r) s1 = true
      /\ k b s2 = Some rest.
Proof.
  induction r as [|ranges|r1 IH1 r2 IH2|r1 IH1 r2 IH2|r' IH| | |name r' IH];
    intros bol s k rest H.
  - exists "", s, bol. auto.
  - simpl in H. destruct s as [|c s']; [discriminate|].
    destruct (class_matches ic ranges c) eqn:Hc; [|discriminate].
    exists (String c ""), s', false. simpl. rewrite Hc. auto.
  - simpl in H. apply IH1 in H as (s1 & s2 & b & -> & Ha & H).
    apply IH2 in H as (s3 & s4 & b' & -> & Hb & H).
    exists (s1 ++ s3), s4, b'. repeat split; [| |exact H].
    + clear. induction s1; simpl; congruence.
    + rewrite string_forallb_app. simpl.
      rewrite (string_forallb_impl _ _ _ (fun c Hc => orb_true_intro _ _ (or_introl Hc)) Ha).
      rewrite (string_forallb_impl _ _ _ (fun c Hc => orb_true_intro _ _ (or_intror Hc)) Hb).
      reflexivity.
  - simpl in H.
    destruct (RegExp.run ic r1 bol s k) eqn:E1.
    + injection H as ->. apply IH1 in E1 as (s1 & s2 & b & -> & Ha & H).
      exists s1, s2, b. repeat split; [|exact H].
      simpl. apply (string_forallb_impl _ _ _ (fun c Hc => orb_true_intro _ _ (or_introl Hc)) Ha).
    + apply IH2 in H as (s1 & s2 & b & -> & Ha & H).
      exists s1, s2, b. repeat split; [|exact H].
      simpl. apply (string_forallb_impl _ _ _ (fun c Hc => orb_true_intro _ _ (or_intror Hc)) Ha).
  - rewrite run_Star in H.
    remember (String.length s) as fuel eqn:Ef. clear Ef. revert bol s H.
    induction fuel as [|fuel IHf]; intros bol s H.
    + exists "", s, bol. auto.
    + simpl in H.
      destruct (RegExp.run ic r' bol s _) eqn:E.
      * injection H as ->.
        apply IH in E as (s1 & s2 & b & -> & Ha & H).
        destruct (Nat.ltb _ _); [|discriminate].
        apply IHf in H as (s3 & s4 & b' & -> & Hb & H).
        exists (s1 ++ s3), s4, b'. repeat split; [| |exact H].
        -- clear. induction s1; simpl; congruence.
        -- rewrite string_forallb_app. apply andb_true_iff. split; [|exact Hb].
           exact (string_forallb_impl _ _ _ (fun c Hc => Hc) Ha).
      * exists "", s, bol. auto.
  - simpl in H. destruct bol; [|discriminate]. exists "", s, true. auto.
  - simpl in H. destruct s; [|discriminate]. exists "", "", bol. auto.
  - simpl in H. apply IH in H as (s1 & s2 & b & -> & Ha & H).
    exists s1, s2, b. auto.
Qed.

(** A successful run either matched the empty text or started with a
    character the pattern can start with. *)
Lemma run_first (ic : bool) (r : regex) :
  forall bol s k rest,
    RegExp.run ic r bol s k = Some rest ->
    (nullable r = true /\ exists b, k b s = Some rest)
    \/ (exists c s', s = String c s' /\ first_char ic r c = true).
Proof.
  induction r as [|ranges|r1 IH1 r2 IH2|r1 IH1 r2 IH2|r' IH| | |name r' IH];
    intros bol s k rest H.
  - left. split; [reflexivity|]. exists bol. exact H.
  - simpl in H. destruct s as [|c s']; [discriminate|].
    destruct (class_matches ic ranges c) eqn:Hc; [|discriminate].
    right. exists c, s'. simpl. auto.
  - simpl in H. apply IH1 in H as [[Hn [b H]] | (c & s' & -> & Hf)].
    + apply IH2 in H as [[Hn2 [b' H]] | (c & s' & -> & Hf)].
      * left. simpl. rewrite Hn, Hn2. split; [reflexivity|]. exists b'. exact H.
      * right. exists c, s'. simpl. rewrite Hn, Hf, orb_true_r. auto.
    + right. exists c, s'. simpl. rewrite Hf. auto.
  - simpl in H.
    destruct (RegExp.run ic r1 bol s k) eqn:E1.
    + injection H as ->. apply IH1 in E1 as [[Hn E] | (c & s' & -> & Hf)].
      * left. simpl. rewrite Hn. auto.
      * right. exists c, s'. simpl. rewrite Hf. auto.
    + apply IH2 in H as [[Hn E] | (c & s' & -> & Hf)].
      * left. simpl. rewrite Hn, orb_true_r. auto.
      * right. exists c, s'. simpl. rewrite Hf, orb_true_r. auto.
  - rewrite run_Star in H.
    destruct (String.length s) as [|fuel] eqn:El; simpl in H.
    + left. split; [reflexivity|]. exists bol. exact H.
    + destruct (RegExp.run ic r' bol s _) eqn:E.
      * injection H as ->.
        apply IH in E as [[Hn [b E]] | (c & s' & -> & Hf)].
        -- rewrite Nat.ltb_irrefl in E. discriminate.
        -- right. exists c, s'. simpl. auto.
      * left. split; [reflexivity|]. exists bol. exact H.
  - simpl in H. destruct bol; [|discriminate].
    left. split; [reflexivity|]. exists true. exact H.
  - simpl in H. destruct s; [|discriminate].
    left. split; [reflexivity|]. exists bol. exact H.
  - simpl in H. apply IH in H as [[Hn E] | (c & s' & -> & Hf)].
    + left. auto.
    + right. exists c, s'. auto.
Qed.

Lemma star_iter_S ic r k fuel b s :
  star_iter ic r k (S fuel) b s
  = match RegExp.run ic r b s
            (fun b' s' =>
               if Nat.ltb (String.length s') (String.length s)
               then star_iter ic r k fuel b' s' else None) with
    | Some rest => Some rest
    | None => k b s
    end.
Proof. reflexivity. Qed.

(** A starred class followed by [$] consumes the whole rest or fails. *)
Lemma run_star_class_eol (ic : bool) (ranges : list (ascii * ascii)) :
  forall s b,
    RegExp.run ic (Star (Class ranges)) b s
      (fun b' s' => RegExp.run ic Eol b' s' (fun _ rest => Some rest))
    = if string_forallb (class_matches ic ranges) s then Some "" else None.
Proof.
  induction s as [|c s IH]; intros b; [reflexivity|].
  rewrite run_Star. cbn [String.length]. rewrite star_iter_S.
  cbn [RegExp.run string_forallb String.length].
  destruct (class_matches ic ranges c); [|reflexivity].
  replace (Nat.ltb (String.length s) (S (String.length s))) with true
    by (symmetry; apply Nat.ltb_lt; lia).
  rewrite <- run_Star, IH. cbn [andb].
  destruct (string_forallb (class_matches ic ranges) s); reflexivity.
Qed.

Lemma substring_all (s : string) :
  String.substring 0 (String.length s) s = s.
Proof. induction s as [|c s IH]; simpl; [reflexivity|]. now rewrite IH. Qed.

Lemma anchored_rest_empty (ic : bool) (r : regex) :
  ends_with_Eol r = true ->
  forall bol s rest,
    RegExp.run ic r bol s (fun _ x => Some x) = Some rest -> rest = "".
Proof.
  induction r as [| |r1 IH1 r2 IH2| | | | |]; try discriminate; intros He bol s rest H.
  - simpl in H. apply run_consumes in H as (_ & s2 & b & _ & _ & H).
    eapply IH2; eassumption.
  - simpl in H. destruct s; [|discriminate]. congruence.
Qed.

Lemma search_after_start (ic : bool) (r : regex) :
  starts_with_Bol r = true ->
  forall s, RegExp.search ic r false s = None.
Proof.
  destruct r as [| |r1 r2| | | | |]; try discriminate.
  destruct r1; try discriminate. intros _.
  induction s as [|c s IH]; [reflexivity|].
  cbn [RegExp.search]. unfold match_here. cbn [RegExp.run]. exact IH.
Qed.

(** With [^] in front and [$] at the end, a [g]-flagged match is [null]
    or the array holding the whole string. *)
Lemma anchored_match_g (re : RegExp.t) (s : string) :
  starts_with_Bol (source re) = true ->
  ends_with_Eol (source re) = true ->
  RegExp.match_g re s
  = match RegExp.match_here (ignoreCase re) (source re) true s with
    | Some _ => Some [s]
    | None => None
    end.
Proof.
  intros Hb He. unfold RegExp.match_g.
  destruct s as [|c s]; cbn [String.length RegExp.match_all RegExp.search].
  - destruct (RegExp.match_here (ignoreCase re) (source re) true "")
      as [rest|] eqn:E; [|reflexivity].
    assert (rest = "") as -> by (eapply anchored_rest_empty; eassumption).
    reflexivity.
  - destruct (RegExp.match_here (ignoreCase re) (source re) true (String c s))
      as [rest|] eqn:E.
    + assert (rest = "") as -> by (eapply anchored_rest_empty; eassumption).
      cbn [String.length]. rewrite Nat.sub_0_r.
      change (S (String.length s)) with (String.length (String c s)).
      rewrite substring_all. cbn [String.length RegExp.match_all].
      rewrite (search_after_start _ _ Hb). reflexivity.
    + rewrite (search_after_start _ _ Hb). reflexivity.
Qed.

Lemma matches_anchored (re : RegExp.t) (s : string) :
  starts_with_Bol (source re) = true ->
  ends_with_Eol (source re) = true ->
  matches re s
  = match RegExp.match_here (ignoreCase re) (source re) true s with
    | Some _ => true
    | None => false
    end.
Proof.
  intros Hb He. unfold matches. rewrite anchored_match_g by assumption.
  destruct (RegExp.match_here _ _ _ _); reflexivity.
Qed.

(** X1 (the exported pattern is anchored): [s.match(semanticVersionRegex)]
    is either [null] or the one-element array [[s]]: the pattern matches a
    string as a whole or not at all, never a part of it and never twice. *)
Theorem semanticVersionRegex_matches_whole (s : string) :
  RegExp.match_g semanticVersionRegex s = None
  \/ RegExp.match_g semanticVersionRegex s = Some [s].
Proof.
  rewrite (anchored_match_g semanticVersionRegex s) by reflexivity.
  destruct (RegExp.match_here _ _ _ _); auto.
Qed.

Ltac each_ascii c :=
  destruct c as [[|] [|] [|] [|] [|] [|] [|] [|]]; vm_compute; reflexivity.

Lemma ident_class (c : ascii) :
  class_matches true [("0", "9"); ("a", "z"); ("-", "-")]%char c = ident_char c.
Proof. each_ascii c. Qed.

Lemma ident_start_class (c : ascii) :
  class_matches true [("1", "9"); ("a", "z"); ("-", "-")]%char c
  = ident_char c && negb (Ascii.eqb c "0").
Proof. each_ascii c. Qed.

Lemma string_forallb_ext (p q : ascii -> bool) (s : string) :
  (forall c, p c = q c) -> string_forallb p s = string_forallb q s.
Proof.
  intros H. induction s as [|c s IH]; simpl; [reflexivity|]. now rewrite H, IH.
Qed.

Lemma alphaNumericRegex_matches (piece : string) :
  matches alphaNumericRegex piece = build_identifier piece.
Proof.
  rewrite matches_anchored by reflexivity.
  destruct piece as [|c rest]; [reflexivity|].
  unfold match_here.
  change (RegExp.run (ignoreCase alphaNumericRegex) (source alphaNumericRegex)
            true (String c rest) (fun _ x => Some x))
    with (if class_matches true [("0", "9"); ("a", "z"); ("-", "-")]%char c
          then RegExp.run true
                 (Star (Class [("0", "9"); ("a", "z"); ("-", "-")]%char))
                 false rest
                 (fun b' s' => RegExp.run true Eol b' s' (fun _ x => Some x))
          else None).
  rewrite run_star_class_eol, ident_class.
  rewrite (string_forallb_ext _ _ rest ident_class).
  unfold build_identifier. cbn [string_forallb].
  destruct (ident_char c), (string_forallb ident_char rest); reflexivity.
Qed.

Lemma alphaNumericWithPrefixRuleRegex_matches (piece : string) :
  matches alphaNumericWithPrefixRuleRegex piece = prerelease_identifier piece.
Proof.
  rewrite matches_anchored by reflexivity.
  destruct piece as [|c rest]; [reflexivity|].
  unfold match_here.
  change (RegExp.run (ignoreCase alphaNumericWithPrefixRuleRegex)
            (source alphaNumericWithPrefixRuleRegex)
            true (String c rest) (fun _ x => Some x))
    with (if class_matches true [("1", "9"); ("a", "z"); ("-", "-")]%char c
          then RegExp.run true
                 (Star (Class [("0", "9"); ("a", "z"); ("-", "-")]%char))
                 false rest
                 (fun b' s' => RegExp.run true Eol b' s' (fun _ x => Some x))
          else None).
  rewrite run_star_class_eol, ident_start_class.
  rewrite (string_forallb_ext _ _ rest ident_class).
  unfold prerelease_identifier.
  destruct (ident_char c), (negb (Ascii.eqb c "0")),
    (string_forallb ident_char rest); reflexivity.
Qed.

Lemma every_piece_matches_spec (re : RegExp.t) (p : string -> bool) (k : string) :
  (forall piece, matches re piece = p piece) ->
  every_piece_matches re k = forallb p (JsString.split "." k).
Proof.
  intros H. unfold every_piece_matches.
  induction (JsString.split "." k) as [|piece ps IH]; [reflexivity|].
  cbn [forallb]. rewrite <- IH, <- H. reflexivity.
Qed.

(** X2 (build and prerelease identifiers): the build schema accepts a
    string exactly when each of its dot-separated pieces is a non-empty run
    of letters, digits and hyphens, and the prerelease schema when,
    besides, no piece starts with the digit 0.  So the empty string, a
    leading, trailing or doubled dot, and a prerelease piece such as "0" or
    "01" are rejected. *)
Theorem build_and_prerelease_identifiers (k : string) :
  is_success (BuildVersionSchema (JStr k))
  = forallb build_identifier (JsString.split "." k)
  /\ is_success (PrereleaseVersionSchema (JStr k))
     = forallb prerelease_identifier (JsString.split "." k).
Proof.
  unfold BuildVersionSchema, PrereleaseVersionSchema.
  rewrite (every_piece_matches_spec _ _ k alphaNumericRegex_matches).
  rewrite (every_piece_matches_spec _ _ k alphaNumericWithPrefixRuleRegex_matches).
  split.
  - destruct (forallb build_identifier _); reflexivity.
  - destruct (forallb prerelease_identifier _); reflexivity.
Qed.

(* ================================================================= *)
(** ** What the grammar accepts, and the renderer *)

Lemma semanticVersionRegex_split (b : bool) (s : string)
      (k : bool -> string -> option string) :
  RegExp.run true (source semanticVersionRegex) b s k
  = RegExp.run true semver_core b s
      (fun b' s' => RegExp.run true (Seq semver_build Eol) b' s' k).
Proof. reflexivity. Qed.

Lemma semver_core_alphabet (c : ascii) :
  alphabet true semver_core c = core_char c.
Proof. each_ascii c. Qed.

Lemma semver_build_first (c : ascii) :
  first_char true semver_build c = Ascii.eqb c "+".
Proof. each_ascii c. Qed.

Lemma semanticVersionRegex_first (c : ascii) :
  first_char true (source semanticVersionRegex) c
  = is_digit c || Ascii.eqb c "v" || Ascii.eqb c "V".
Proof. each_ascii c. Qed.

Lemma core_char_not_plus (c : ascii) :
  core_char c = true -> Ascii.eqb c "+" = false.
Proof.
  destruct (Ascii.eqb_spec c "+") as [-> |]; [discriminate | reflexivity].
Qed.

Lemma core_until_plus_app (s1 s2 : string) :
  string_forallb core_char s1 = true ->
  core_until_plus (s1 ++ s2) = core_until_plus s2.
Proof.
  induction s1 as [|c s1 IH]; simpl; [reflexivity|].
  intros H. apply andb_true_iff in H as [Hc Hs].
  rewrite (core_char_not_plus _ Hc), Hc, (IH Hs). reflexivity.
Qed.

Lemma matched_by_grammar (s : string) :
  matches semanticVersionRegex s = true ->
  exists rest,
    RegExp.run true (source semanticVersionRegex) true s (fun _ x => Some x)
    = Some rest.
Proof.
  rewrite matches_anchored by reflexivity. unfold match_here.
  cbn [ignoreCase semanticVersionRegex source].
  destruct (RegExp.run _ _ _ _ _) as [rest|]; [|discriminate].
  intros _. exists rest. reflexivity.
Qed.

(** A match has only letters, digits, dots and spaces before its first
    plus sign. *)
Lemma match_core_until_plus (s : string) :
  matches semanticVersionRegex s = true -> core_until_plus s = true.
Proof.
  intros H. apply matched_by_grammar in H as [rest E].
  rewrite semanticVersionRegex_split in E.
  apply run_consumes in E as (s1 & s2 & b & -> & Ha & E).
  rewrite (string_forallb_ext _ _ s1 semver_core_alphabet) in Ha.
  rewrite (core_until_plus_app _ _ Ha).
  cbn [RegExp.run] in E.
  change (RegExp.run true semver_build b s2
            (fun b' s' => RegExp.run true Eol b' s' (fun _ x => Some x))
          = Some rest) in E.
  apply run_first in E as [[_ [b' E]] | (c & s' & -> & Hf)].
  - destruct s2; [reflexivity | discriminate E].
  - rewrite semver_build_first in Hf. simpl. rewrite Hf. reflexivity.
Qed.

(** A match starts with a digit, v or V. *)
Lemma match_first_char (s : string) :
  matches semanticVersionRegex s = true ->
  exists c s', s = String c s'
               /\ is_digit c || Ascii.eqb c "v" || Ascii.eqb c "V" = true.
Proof.
  intros H. apply matched_by_grammar in H as [rest E].
  apply run_first in E as [[Hn _] | (c & s' & -> & Hf)].
  - discriminate Hn.
  - exists c, s'. split; [reflexivity|].
    rewrite <- semanticVersionRegex_first. exact Hf.
Qed.

(** X3 (what the grammar can match): a string [semanticVersionRegex]
    matches starts with a digit or with v or V, and every character of it
    up to the first plus sign is a letter, a digit, a dot or a space; in
    particular a hyphen can only occur after a plus sign. *)
Theorem semanticVersionRegex_necessary (s : string) :
  matches semanticVersionRegex s = true ->
  core_until_plus s = true
  /\ exists c s', s = String c s'
                  /\ is_digit c || Ascii.eqb c "v" || Ascii.eqb c "V" = true.
Proof.
  intros H. split.
  - apply match_core_until_plus, H.
  - apply match_first_char, H.
Qed.

Lemma semanticVersionRegex_necessary_witness :
  core_until_plus "Ver 1.2.3.4.rc.1+build-7" = true.
Proof.
  apply (semanticVersionRegex_necessary "Ver 1.2.3.4.rc.1+build-7").
  vm_compute. reflexivity.
Defined.

Lemma uint_digits (d : Decimal.uint) :
  string_forallb is_digit (NilEmpty.string_of_uint d) = true.
Proof. induction d; simpl; auto. Qed.

Lemma of_Z_digits (z : Z) :
  0 <= z -> string_forallb is_digit (JsString.of_Z z) = true.
Proof.
  intros H. unfold JsString.of_Z.
  destruct z as [|p|p]; [reflexivity| |lia].
  simpl. unfold NilZero.string_of_uint.
  destruct (Pos.to_uint p) eqn:E; try reflexivity; rewrite <- E;
    apply uint_digits.
Qed.

Lemma of_Z_core (z : Z) :
  0 <= z -> string_forallb core_char (JsString.of_Z z) = true.
Proof.
  intros H. apply (string_forallb_impl is_digit); [|apply of_Z_digits, H].
  intros c Hc. unfold core_char. rewrite Hc. reflexivity.
Qed.

Lemma core_until_plus_dot (s : string) :
  core_until_plus (String "." s) = core_until_plus s.
Proof. reflexivity. Qed.

Lemma core_until_plus_hyphen (s : string) :
  core_until_plus (String "-" s) = false.
Proof. reflexivity. Qed.

(** The fields of a version that passes the non-strict standard check
    satisfy their schemas. *)
Lemma standard_compliant_inv (v : SemanticVersion) :
  isStandardCompliant v false = true ->
  is_success (BranchSchema (js_of_string (Branch v))) = true
  /\ is_success (LabelSchema (js_of_string (Label v))) = true
  /\ is_success (MajorVersionSchema (JNum (Int (Major v)))) = true
  /\ is_success (MinorVersionSchema (JNum (Int (Minor v)))) = true
  /\ is_success (PatchVersionSchema (JNum (Int (Patch v)))) = true
  /\ is_success (HotfixVersionSchema (js_of_Z (Hotfix v))) = true
  /\ is_success (PrereleaseVersionSchema (js_of_string (Prerelease v))) = true
  /\ is_success (BuildVersionSchema (js_of_string (Build v))) = true.
Proof.
  unfold isStandardCompliant, checkStandardCompliance, unless_valid.
  cbn [andb].
  destruct (is_success (BranchSchema _)); [|discriminate].
  destruct (is_success (LabelSchema _)); [|discriminate].
  destruct (is_success (MajorVersionSchema _)); [|discriminate].
  destruct (is_success (MinorVersionSchema _)); [|discriminate].
  destruct (is_success (PatchVersionSchema _)); [|discriminate].
  destruct (is_success (HotfixVersionSchema _)); [|discriminate].
  destruct (is_success (PrereleaseVersionSchema _)); [|discriminate].
  destruct (is_success (BuildVersionSchema _)); [|discriminate].
  intros _. repeat split.
Qed.

Lemma is_success_number_range (z : Z) :
  is_success (MajorVersionSchema (JNum (Int z))) = true ->
  0 <= z <= MAX_SAFE_INTEGER.
Proof.
  destruct (MajorVersionSchema (JNum (Int z))) as [z'|] eqn:E; [|discriminate].
  intros _. apply MajorVersionSchema_range in E as [[= <-] H]. exact H.
Qed.

Lemma standard_compliant_ranges (v : SemanticVersion) :
  isStandardCompliant v false = true ->
  0 <= Major v <= MAX_SAFE_INTEGER
  /\ 0 <= Minor v <= MAX_SAFE_INTEGER
  /\ 0 <= Patch v <= MAX_SAFE_INTEGER
  /\ (forall h, Hotfix v = Some h -> 0 <= h <= MAX_SAFE_INTEGER).
Proof.
  intros H. apply standard_compliant_inv in H.
  destruct H as (_ & _ & Hma & Hmi & Hpa & Hh & _).
  split; [apply is_success_number_range, Hma|].
  split; [apply is_success_number_range, Hmi|].
  split; [apply is_success_number_range, Hpa|].
  intros h Eh. apply is_success_number_range.
  rewrite Eh in Hh. unfold HotfixVersionSchema in Hh. cbn [js_of_Z] in Hh.
  destruct (MajorVersionSchema (JNum (Int h))); [reflexivity | discriminate].
Qed.

(** X4 (the grammar against the renderer): whatever the [g] flag does to
    the groups, the pattern does not match the rendering of a valid
    version that has a prerelease and neither branch nor label (the
    renderer writes a hyphen, the pattern wants a dot), nor the rendering
    of a version whose branch starts with anything but a digit, v or V
    (the pattern has no branch). *)
Theorem grammar_rejects_renderings (v : SemanticVersion) :
  (isStandardCompliant v false = true ->
   Branch v = None -> Label v = None -> Prerelease v <> None ->
   RegExp.match_g semanticVersionRegex (toString v) = None)
  /\ (forall c b,
         Branch v = Some (String c b) ->
         is_digit c || Ascii.eqb c "v" || Ascii.eqb c "V" = false ->
         RegExp.match_g semanticVersionRegex (toString v) = None).
Proof.
  split.
  - intros Hok Hb Hl Hp.
    destruct (RegExp.match_g semanticVersionRegex (toString v)) eqn:E;
      [exfalso|reflexivity].
    assert (Hm : matches semanticVersionRegex (toString v) = true)
      by (unfold matches; rewrite E; reflexivity).
    apply match_core_until_plus in Hm.
    apply standard_compliant_ranges in Hok as (Hma & Hmi & Hpa & Hh).
    unfold toString, Branch, Label, Prerelease, Major, Minor, Patch, Hotfix in *.
    rewrite Hb, Hl in Hm.
    destruct (_prerelease v) as [p|]; [|contradiction].
    destruct (_hotfix v) as [h|]; cbn [append] in Hm;
      rewrite (core_until_plus_app _ _ (of_Z_core _ (proj1 Hma))) in Hm;
      rewrite core_until_plus_dot in Hm;
      rewrite (core_until_plus_app _ _ (of_Z_core _ (proj1 Hmi))) in Hm;
      rewrite core_until_plus_dot in Hm;
      rewrite (core_until_plus_app _ _ (of_Z_core _ (proj1 Hpa))) in Hm.
    + rewrite core_until_plus_dot in Hm.
      rewrite (core_until_plus_app _ _ (of_Z_core _ (proj1 (Hh h eq_refl)))) in Hm.
      rewrite core_until_plus_hyphen in Hm. discriminate.
    + rewrite core_until_plus_hyphen in Hm. discriminate.
  - intros c b Hb Hc.
    destruct (RegExp.match_g semanticVersionRegex (toString v)) eqn:E;
      [exfalso|reflexivity].
    assert (Hm : matches semanticVersionRegex (toString v) = true)
      by (unfold matches; rewrite E; reflexivity).
    apply match_first_char in Hm as (c' & s' & Hs & Hc').
    unfold toString, Branch in *. rewrite Hb in Hs.
    cbn [append] in Hs. injection Hs as <- _. congruence.
Qed.

Lemma grammar_rejects_renderings_witness :
  RegExp.match_g semanticVersionRegex (toString prerelease_version) = None
  /\ RegExp.match_g semanticVersionRegex (toString release_version) = None.
Proof.
  split.
  - destruct (grammar_rejects_renderings prerelease_version) as [H _].
    apply H; [reflexivity | reflexivity | reflexivity | discriminate].
  - destruct (grammar_rejects_renderings release_version) as [_ H].
    apply (H "r"%char "elease"); reflexivity.
Defined.

(* ================================================================= *)
(** ** The constructor: what it rejects and what it keeps *)

(** X5 (what the constructor rejects): every string makes the constructor
    throw: the empty string as an invalid initializer, a string the
    grammar does not match as an invalid version string, and a string it
    matches with a validation error.  Booleans, numbers (0 and NaN
    included) and functions are invalid initializers; arrays and regular
    expressions fail validation.  So does an instance of the class: it
    only has the underscored fields and the capitalised getters, so
    [major], [minor] and [patch] are reported missing and an instance
    cannot be copied through the constructor. *)
Theorem constructor_rejections (static : option Settings.t) :
  (forall s,
      new_SemanticVersion static (JStr s)
      = if String.eqb s "" then Throw InvalidSemanticVersionInitializer
        else if matches semanticVersionRegex s
             then Throw (ValidationError [mkIssue [] invalid_type])
             else Throw InvalidSemanticVersionString)
  /\ (forall b, new_SemanticVersion static (JBool b)
                = Throw InvalidSemanticVersionInitializer)
  /\ (forall n, new_SemanticVersion static (JNum n)
                = Throw InvalidSemanticVersionInitializer)
  /\ new_SemanticVersion static JFunction
     = Throw InvalidSemanticVersionInitializer
  /\ (forall xs, new_SemanticVersion static (JArray xs)
                 = Throw (ValidationError [mkIssue [] invalid_type]))
  /\ (forall re, exists es, new_SemanticVersion static (JRegExp re)
                            = Throw (ValidationError es))
  /\ (forall v,
         new_SemanticVersion static (JVersion v)
         = Throw (ValidationError [ mkIssue ["major"] invalid_type;
                                    mkIssue ["minor"] invalid_type;
                                    mkIssue ["patch"] invalid_type ])).
Proof.
  split; [|split; [|split; [|split; [|split; [|split]]]]].
  - intros s. unfold new_SemanticVersion, matches, String_match.
    cbn [typeof js_type_eqb truthy as_string].
    destruct (String.eqb s ""); cbn [negb andb]; [reflexivity|].
    destruct (RegExp.match_g semanticVersionRegex s); reflexivity.
  - intros [|]; reflexivity.
  - intros [z| |]; try reflexivity.
    unfold new_SemanticVersion. cbn [typeof js_type_eqb].
    rewrite !andb_false_r. reflexivity.
  - reflexivity.
  - reflexivity.
  - intros re. eexists. reflexivity.
  - intros v. reflexivity.
Qed.

Lemma prerelease_pieces (p : string) :
  is_success (PrereleaseVersionSchema (JStr p)) = true ->
  forallb prerelease_identifier (JsString.split "." p) = true.
Proof.
  unfold PrereleaseVersionSchema.
  rewrite (every_piece_matches_spec _ _ p alphaNumericWithPrefixRuleRegex_matches).
  destruct (forallb prerelease_identifier _); [reflexivity | discriminate].
Qed.

Lemma build_pieces (p : string) :
  is_success (BuildVersionSchema (JStr p)) = true ->
  forallb build_identifier (JsString.split "." p) = true.
Proof.
  unfold BuildVersionSchema.
  rewrite (every_piece_matches_spec _ _ p alphaNumericRegex_matches).
  destruct (forallb build_identifier _); [reflexivity | discriminate].
Qed.

(** X6 (the invariant of constructed versions): whatever the initializer,
    a version the constructor returns has major, minor and patch between 0
    and the largest safe integer, a hotfix in that range if it has one, a
    branch that is not the empty string, and a prerelease and a build made
    of well-formed dot-separated identifiers. *)
Theorem constructed_fields_are_valid (static : option Settings.t)
        (initializer : jsval) (v : SemanticVersion) :
  new_SemanticVersion static initializer = Ok v ->
  0 <= Major v <= MAX_SAFE_INTEGER
  /\ 0 <= Minor v <= MAX_SAFE_INTEGER
  /\ 0 <= Patch v <= MAX_SAFE_INTEGER
  /\ (forall h, Hotfix v = Some h -> 0 <= h <= MAX_SAFE_INTEGER)
  /\ Branch v <> Some ""
  /\ (forall p, Prerelease v = Some p ->
                forallb prerelease_identifier (JsString.split "." p) = true)
  /\ (forall b, Build v = Some b ->
                forallb build_identifier (JsString.split "." b) = true).
Proof.
  intros H. apply constructed_is_standard_compliant in H.
  pose proof (standard_compliant_ranges v H) as (Hma & Hmi & Hpa & Hh).
  pose proof (standard_compliant_branch_nonempty v H) as Hb.
  apply standard_compliant_inv in H.
  destruct H as (_ & _ & _ & _ & _ & _ & Hpr & Hbu).
  repeat (split; [assumption|]). split.
  - intros p Hp. rewrite Hp in Hpr. apply prerelease_pieces, Hpr.
  - intros b Hbd. rewrite Hbd in Hbu. apply build_pieces, Hbu.
Qed.

Lemma constructed_fields_are_valid_witness :
  0 <= Major release_version <= MAX_SAFE_INTEGER
  /\ Branch release_version <> Some "".
Proof.
  destruct (constructed_fields_are_valid None release_fields release_version)
    as (Hma & _ & _ & _ & Hb & _).
  - vm_compute. reflexivity.
  - split; assumption.
Defined.

(* ================================================================= *)
(** ** [toJSON] and back *)

Lemma BranchSchema_of_field (b : option string) :
  is_success (BranchSchema (js_of_string b)) = true ->
  BranchSchema (js_of_string b) = success b.
Proof.
  destruct b as [s|]; simpl; [|reflexivity].
  destruct (String.eqb s ""); [discriminate | reflexivity].
Qed.

Lemma LabelSchema_of_field (l : option string) :
  LabelSchema (js_of_string l) = success l.
Proof.
  destruct l as [s|]; simpl; [|reflexivity].
  destruct (RegExp.match_g labelRegex s) eqn:E; [reflexivity|].
  exfalso. exact (label_match_never_null s E).
Qed.

Lemma MajorVersionSchema_of_field (z : Z) :
  is_success (MajorVersionSchema (JNum (Int z))) = true ->
  MajorVersionSchema (JNum (Int z)) = success z.
Proof.
  intros H. apply MajorVersionSchema_in_range, is_success_number_range, H.
Qed.

Lemma HotfixVersionSchema_of_field (h : option Z) :
  is_success (HotfixVersionSchema (js_of_Z h)) = true ->
  HotfixVersionSchema (js_of_Z h) = success h.
Proof.
  destruct h as [z|]; [|reflexivity].
  unfold HotfixVersionSchema. cbn [js_of_Z].
  destruct (MajorVersionSchema (JNum (Int z))) as [z'|] eqn:E; [|discriminate].
  intros _. apply MajorVersionSchema_range in E as [[= <-] _]. reflexivity.
Qed.

Lemma PrereleaseVersionSchema_of_field (p : option string) :
  is_success (PrereleaseVersionSchema (js_of_string p)) = true ->
  PrereleaseVersionSchema (js_of_string p) = success p.
Proof.
  destruct p as [s|]; simpl; [|reflexivity].
  destruct (every_piece_matches _ s); [reflexivity | discriminate].
Qed.

Lemma BuildVersionSchema_of_field (p : option string) :
  is_success (BuildVersionSchema (js_of_string p)) = true ->
  BuildVersionSchema (js_of_string p) = success p.
Proof.
  destruct p as [s|]; simpl; [|reflexivity].
  destruct (every_piece_matches _ s); [reflexivity | discriminate].
Qed.

(** The snapshot of a valid version whose settings validate is accepted
    again, field by field. *)
Lemma toJSON_validates (v : SemanticVersion) :
  isStandardCompliant v false = true ->
  ComplianceSettingsSchema (js_of_settings_opt (ComplianceSettings v))
  = success (ComplianceSettings v) ->
  SemanticVersionSchema (js_of_struct (toJSON v)) = success (toJSON v).
Proof.
  intros Hok Hcs. apply standard_compliant_inv in Hok.
  destruct Hok as (Hb & Hl & Hma & Hmi & Hpa & Hh & Hpr & Hbu).
  destruct v as [b l ma mi pa h pr bu cs].
  unfold Branch, Label, Major, Minor, Patch, Hotfix, Prerelease, Build,
    ComplianceSettings, MinorVersionSchema, PatchVersionSchema in *.
  cbn [_branch _label _major _minor _patch _hotfix _prerelease _build
       _complianceSettings] in *.
  unfold toJSON.
  cbn [_branch _label _major _minor _patch _hotfix _prerelease _build
       _complianceSettings].
  apply SemanticVersionSchema_success_intro;
    cbn [js_of_struct is_object get_prop lookup String.eqb Ascii.eqb Bool.eqb
         branch label major minor patch hotfix prerelease build
         complianceSettings];
    auto using BranchSchema_of_field, LabelSchema_of_field,
      MajorVersionSchema_of_field, HotfixVersionSchema_of_field,
      PrereleaseVersionSchema_of_field, BuildVersionSchema_of_field.
Qed.

(** X7 ([toJSON] round trip): a version that was constructed with its own
    compliance settings is rebuilt exactly from its [toJSON] snapshot, by
    the constructor and by [tryParse], whatever the static default is at
    that time. *)
Theorem toJSON_roundtrip (static0 static : option Settings.t)
        (initializer : jsval) (v : SemanticVersion) :
  new_SemanticVersion static0 initializer = Ok v ->
  is_undefined (get_prop initializer "complianceSettings") = false ->
  new_SemanticVersion static (js_of_struct (toJSON v)) = Ok v
  /\ tryParse static (js_of_struct (toJSON v)) = Ok (Some v).
Proof.
  intros Hnew Hexp.
  destruct (constructed_with_explicit_settings _ _ _ Hnew Hexp)
    as (cs & Hparsed & Hcs).
  pose proof (constructed_is_standard_compliant _ _ _ Hnew) as Hok.
  assert (Hv : SemanticVersionSchema (js_of_struct (toJSON v))
               = success (toJSON v)).
  { apply toJSON_validates; [exact Hok|].
    rewrite Hcs. apply (ComplianceSettingsSchema_again _ _ Hparsed). }
  assert (Hf : fields_of (toJSON v)
                 (match complianceSettings (toJSON v) with
                  | Some c => Some c
                  | None => static
                  end) = v).
  { destruct v as [b l ma mi pa h pr bu c]. unfold ComplianceSettings in Hcs.
    cbn in Hcs. subst c. reflexivity. }
  split.
  - unfold js_of_struct at 1. rewrite new_SemanticVersion_object.
    fold (js_of_struct (toJSON v)). rewrite Hv, Hf. reflexivity.
  - rewrite tryParse_object by (reflexivity || discriminate).
    rewrite Hv, Hf. reflexivity.
Qed.

Lemma toJSON_roundtrip_witness :
  new_SemanticVersion (Some (require_only KBuild))
                      (js_of_struct (toJSON governed_version))
  = Ok governed_version.
Proof.
  apply (toJSON_roundtrip None (Some (require_only KBuild))
                          governed_fields governed_version).
  - vm_compute. reflexivity.
  - reflexivity.
Defined.

(** X8 ([tryParse] against the constructor): on an object literal
    [tryParse] returns exactly the version the constructor builds, and
    [undefined] where the constructor throws; on [null] and [undefined],
    where the constructor builds 0.0.1, it returns [undefined]. *)
Theorem tryParse_follows_constructor (static : option Settings.t) :
  (forall props,
      tryParse static (JObject props)
      = match new_SemanticVersion static (JObject props) with
        | Ok v => Ok (Some v)
        | Throw _ => Ok None
        end)
  /\ new_SemanticVersion static JNull = Ok (default_version static)
  /\ new_SemanticVersion static JUndefined = Ok (default_version static)
  /\ tryParse static JNull = Ok None
  /\ tryParse static JUndefined = Ok None.
Proof.
  split; [|repeat split].
  intros props.
  rewrite tryParse_object by (reflexivity || discriminate).
  rewrite new_SemanticVersion_object.
  destruct (SemanticVersionSchema (JObject props)); reflexivity.
Qed.

(* ================================================================= *)
(** ** Standard compliance: strict against non-strict *)

Lemma label_falsy_iff (l : option string) :
  truthy (js_of_string l) = false <-> l = None \/ l = Some "".
Proof.
  destruct l as [l|]; simpl.
  - destruct (String.eqb_spec l "") as [-> | Hn]; simpl; split; intros H;
      auto; try discriminate.
    destruct H as [H | [= H]]; [discriminate | contradiction].
  - split; auto.
Qed.

Lemma strict_compliant_inv (v : SemanticVersion) :
  isStandardCompliant v true = true ->
  Branch v = None
  /\ truthy (js_of_string (Label v)) = false
  /\ Hotfix v = None
  /\ is_success (LabelSchema (js_of_string (Label v))) = true
  /\ is_success (MajorVersionSchema (JNum (Int (Major v)))) = true
  /\ is_success (MinorVersionSchema (JNum (Int (Minor v)))) = true
  /\ is_success (PatchVersionSchema (JNum (Int (Patch v)))) = true
  /\ is_success (PrereleaseVersionSchema (js_of_string (Prerelease v))) = true
  /\ is_success (BuildVersionSchema (js_of_string (Build v))) = true.
Proof.
  unfold isStandardCompliant, checkStandardCompliance, unless_valid.
  cbn [andb].
  destruct (Branch v); [discriminate|].
  destruct (truthy (js_of_string (Label v))); [discriminate|].
  destruct (is_success (LabelSchema _)); [|discriminate].
  destruct (is_success (MajorVersionSchema _)); [|discriminate].
  destruct (is_success (MinorVersionSchema _)); [|discriminate].
  destruct (is_success (PatchVersionSchema _)); [|discriminate].
  destruct (Hotfix v); [discriminate|].
  destruct (is_success (PrereleaseVersionSchema _)); [|discriminate].
  destruct (is_success (BuildVersionSchema _)); [|discriminate].
  intros _. repeat split.
Qed.

Lemma strict_compliant_intro (v : SemanticVersion) :
  Branch v = None ->
  truthy (js_of_string (Label v)) = false ->
  Hotfix v = None ->
  is_success (LabelSchema (js_of_string (Label v))) = true ->
  is_success (MajorVersionSchema (JNum (Int (Major v)))) = true ->
  is_success (MinorVersionSchema (JNum (Int (Minor v)))) = true ->
  is_success (PatchVersionSchema (JNum (Int (Patch v)))) = true ->
  is_success (PrereleaseVersionSchema (js_of_string (Prerelease v))) = true ->
  is_success (BuildVersionSchema (js_of_string (Build v))) = true ->
  isStandardCompliant v true = true.
Proof.
  intros Hb Ht Hh Hl Hma Hmi Hpa Hpr Hbu.
  unfold isStandardCompliant, checkStandardCompliance, unless_valid.
  cbn [andb]. rewrite Hb, Ht, Hh, Hl, Hma, Hmi, Hpa, Hpr, Hbu. reflexivity.
Qed.

(** X9 (strict mode): a version is strictly compliant exactly when it is
    compliant in non-strict mode and has no branch, no hotfix and no label
    other than the empty string. *)
Theorem strict_compliance_iff (v : SemanticVersion) :
  isStandardCompliant v true = true
  <-> isStandardCompliant v false = true
      /\ Branch v = None
      /\ Hotfix v = None
      /\ (Label v = None \/ Label v = Some "").
Proof.
  split.
  - intros H. apply strict_compliant_inv in H.
    destruct H as (Hb & Ht & Hh & Hl & Hma & Hmi & Hpa & Hpr & Hbu).
    split; [|split; [exact Hb | split; [exact Hh | apply label_falsy_iff, Ht]]].
    apply standard_compliant_intro; try assumption.
    + rewrite Hb. reflexivity.
    + rewrite Hh. reflexivity.
  - intros (H & Hb & Hh & Hl). apply standard_compliant_inv in H.
    destruct H as (_ & Hls & Hma & Hmi & Hpa & _ & Hpr & Hbu).
    apply strict_compliant_intro; try assumption.
    apply label_falsy_iff, Hl.
Qed.

(* ================================================================= *)
(** ** Custom compliance *)

Lemma constructed_without_settings (static : option Settings.t)
      (initializer : jsval) (v : SemanticVersion) :
  new_SemanticVersion static initializer = Ok v ->
  is_undefined (get_prop initializer "complianceSettings") = true ->
  ComplianceSettings v = static.
Proof.
  intros H Hu.
  destruct initializer as [| |b|n|s| |re|xs|props|v0];
    try (unfold new_SemanticVersion in H; cbn [typeof js_type_eqb] in H;
         rewrite ?andb_false_r in H; cbv iota in H;
         first [discriminate H | injection H as <-; reflexivity]).
  - pose proof (new_SemanticVersion_string static s) as Ht.
    rewrite H in Ht. discriminate.
  - rewrite new_SemanticVersion_object in H.
    destruct (SemanticVersionSchema (JObject props)) as [d|] eqn:E;
      [|discriminate].
    injection H as <-.
    apply SemanticVersionSchema_success_inv in E.
    destruct E as (_ & _ & _ & _ & _ & _ & _ & _ & _ & Hcs).
    destruct (get_prop (JObject props) "complianceSettings");
      try discriminate Hu.
    injection Hcs as <-. reflexivity.
Qed.

Lemma single_report (key : Key) (v : SemanticVersion) (cs : Settings.t) :
  ComplianceSettings v = Some cs ->
  exists rep,
    checkCustomComplianceForSingleSetting key v = Ok rep
    /\ Report.field rep = key
    /\ ((Report.success rep = true /\ Report.messages rep = [])
        \/ (Report.success rep = false
            /\ exists m, Report.messages rep = [m] /\ type m = error)).
Proof.
  intros Hcs. unfold checkCustomComplianceForSingleSetting. rewrite Hcs.
  destruct (setting_of key cs).
  - destruct (_ || _ || _); eexists; split; try reflexivity; split;
      try reflexivity; [right | left]; split; try reflexivity.
    eexists; split; reflexivity.
  - eexists; split; [reflexivity|]. split; [reflexivity|]. left. split; reflexivity.
  - destruct (negb _); eexists; split; try reflexivity; split;
      try reflexivity; [right | left]; split; try reflexivity.
    eexists; split; reflexivity.
  - destruct (negb _); eexists; split; try reflexivity; split;
      try reflexivity; [right | left]; split; try reflexivity.
    eexists; split; reflexivity.
Qed.

(** X10 (custom compliance needs settings): a version built without
    compliance settings of its own holds the static default of the moment.
    When no default was ever set, [isCustomCompliant] does not answer but
    throws a TypeError; with a default it always answers. *)
Theorem custom_compliance_needs_settings (static : option Settings.t)
        (initializer : jsval) (v : SemanticVersion) :
  new_SemanticVersion static initializer = Ok v ->
  is_undefined (get_prop initializer "complianceSettings") = true ->
  ComplianceSettings v = static
  /\ (static = None -> isCustomCompliant v = Throw TypeError)
  /\ (static <> None -> exists b, isCustomCompliant v = Ok b).
Proof.
  intros H Hu. pose proof (constructed_without_settings _ _ _ H Hu) as Hcs.
  split; [exact Hcs|]. split.
  - intros ->. unfold isCustomCompliant, checkCustomCompliance,
      checkCustomComplianceForSingleSetting. rewrite Hcs. reflexivity.
  - intros Hs. destruct static as [cs|]; [|contradiction].
    unfold isCustomCompliant, checkCustomCompliance.
    destruct (single_report KBranch v cs Hcs) as (rb & -> & _).
    destruct (single_report KLabel v cs Hcs) as (rl & -> & _).
    destruct (single_report KHotfix v cs Hcs) as (rh & -> & _).
    destruct (single_report KPrerelease v cs Hcs) as (rp & -> & _).
    destruct (single_report KBuild v cs Hcs) as (ru & -> & _).
    eexists. reflexivity.
Qed.

Lemma custom_compliance_needs_settings_witness :
  isCustomCompliant main_version = Throw TypeError.
Proof.
  destruct (custom_compliance_needs_settings None main_fields main_version)
    as (_ & H & _).
  - vm_compute. reflexivity.
  - reflexivity.
  - apply H. reflexivity.
Defined.

(** X11 (the custom report): for a version that has settings,
    [checkCustomCompliance] returns a report whose messages are all errors,
    at most one per governed field, and which succeeds exactly when there
    is no message; [isCustomCompliant] is that success flag. *)
Theorem custom_report_shape (v : SemanticVersion) (cs : Settings.t) :
  ComplianceSettings v = Some cs ->
  exists o,
    checkCustomCompliance v = Ok o
    /\ isCustomCompliant v = Ok (Outcome.success o)
    /\ (Outcome.success o = true <-> Outcome.messages o = [])
    /\ (forall m, In m (Outcome.messages o) -> type m = error)
    /\ (List.length (Outcome.messages o) <= 5)%nat.
Proof.
  intros Hcs. unfold isCustomCompliant, checkCustomCompliance.
  destruct (single_report KBranch v cs Hcs) as (rb & -> & _ & Hb).
  destruct (single_report KLabel v cs Hcs) as (rl & -> & _ & Hl).
  destruct (single_report KHotfix v cs Hcs) as (rh & -> & _ & Hh).
  destruct (single_report KPrerelease v cs Hcs) as (rp & -> & _ & Hp).
  destruct (single_report KBuild v cs Hcs) as (ru & -> & _ & Hu).
  eexists. split; [reflexivity|]. split; [reflexivity|].
  cbn [Outcome.success Outcome.messages forallb flat_map].
  destruct Hb as [[-> ->] | [-> (mb & -> & Tb)]];
    destruct Hl as [[-> ->] | [-> (ml & -> & Tl)]];
    destruct Hh as [[-> ->] | [-> (mh & -> & Th)]];
    destruct Hp as [[-> ->] | [-> (mp & -> & Tp)]];
    destruct Hu as [[-> ->] | [-> (mu & -> & Tu)]];
    cbn [andb app List.length];
    (split; [split; intros H; (reflexivity || discriminate H)|]);
    (split; [intros m Hin; cbn [In] in Hin; intuition congruence | lia]).
Qed.

Lemma custom_report_shape_witness :
  isCustomCompliant governed_version = Ok false.
Proof.
  destruct (custom_report_shape governed_version governed_settings eq_refl)
    as (o & Ho & Hi & Hs & _).
  rewrite Hi. f_equal. vm_compute in Ho. injection Ho as <-. reflexivity.
Defined.

(** X12 ([forbidden], and the empty literal): under [forbidden] a governed
    field passes exactly when it is absent, and an allow-list holding only
    the empty string decides in the same way. *)
Theorem forbidden_iff_absent (key : Key) (v : SemanticVersion)
        (cs : Settings.t) :
  ComplianceSettings v = Some cs ->
  setting_of key cs = forbidden \/ setting_of key cs = oneOf [RString ""] ->
  exists rep,
    checkCustomComplianceForSingleSetting key v = Ok rep
    /\ Report.success rep = is_undefined (field_value key v).
Proof.
  intros Hcs Hset. unfold checkCustomComplianceForSingleSetting. rewrite Hcs.
  assert (Hv : (exists o, field_value key v = js_of_string o)
               \/ (exists o, field_value key v = js_of_Z o))
    by (destruct key; [left|left|right|left|left]; eexists; reflexivity).
  destruct Hset as [-> | ->];
    destruct Hv as [[[x|] ->] | [[x|] ->]]; simpl;
    eexists; split; reflexivity.
Qed.

Lemma forbidden_iff_absent_witness :
  exists rep,
    checkCustomComplianceForSingleSetting KBuild
      (mkVersion None None 1 0 0 None None (Some "7")
                 (Some (Settings.mk optional optional optional optional forbidden)))
    = Ok rep
    /\ Report.success rep = false.
Proof.
  destruct (forbidden_iff_absent KBuild
              (mkVersion None None 1 0 0 None None (Some "7")
                 (Some (Settings.mk optional optional optional optional forbidden)))
              (Settings.mk optional optional optional optional forbidden)
              eq_refl (or_introl eq_refl))
    as (rep & Hr & Hs).
  exists rep. split; [exact Hr | exact Hs].
Defined.

Lemma string_rule_matches (o : option string) (s : string) :
  rule_matches (js_of_string o) (RString s) = true
  <-> (o = None /\ s = "") \/ (o = Some s /\ s <> "").
Proof.
  unfold rule_matches.
  destruct (String.eqb_spec s "") as [-> | Hs]; destruct o as [x|]; simpl.
  - split; [discriminate|]. intros [[H _] | [_ H]]; [discriminate | contradiction].
  - split; auto.
  - rewrite String.eqb_eq. split.
    + intros ->. right. auto.
    + intros [[H _] | [[= ->] _]]; [discriminate | reflexivity].
  - split; [discriminate|]. intros [[_ H] | [H _]]; [contradiction | discriminate].
Qed.

(** X13 (allow-lists of strings): for Branch, Label, Prerelease and Build,
    an allow-list of string literals passes exactly when the field is
    absent and the empty string is listed, or the field is a non-empty
    string that is listed.  A present but empty label is never allowed. *)
Theorem string_allow_list (key : Key) (v : SemanticVersion)
        (cs : Settings.t) (literals : list string) :
  key <> KHotfix ->
  ComplianceSettings v = Some cs ->
  setting_of key cs = oneOf (map RString literals) ->
  exists rep,
    checkCustomComplianceForSingleSetting key v = Ok rep
    /\ (Report.success rep = true
        <-> (field_value key v = JUndefined /\ In "" literals)
            \/ (exists s, field_value key v = JStr s /\ s <> ""
                          /\ In s literals)).
Proof.
  intros Hk Hcs Hset. unfold checkCustomComplianceForSingleSetting.
  rewrite Hcs, Hset.
  assert (Hv : exists o, field_value key v = js_of_string o)
    by (destruct key; try contradiction; eexists; reflexivity).
  destruct Hv as [o ->].
  assert (Hex : existsb (rule_matches (js_of_string o)) (map RString literals)
                = true
                <-> (js_of_string o = JUndefined /\ In "" literals)
                    \/ (exists s, js_of_string o = JStr s /\ s <> ""
                                  /\ In s literals)).
  { rewrite existsb_exists. split.
    - intros (r & Hin & Hm). apply in_map_iff in Hin as (s & <- & Hin).
      apply string_rule_matches in Hm as [[-> ->] | [-> Hs]].
      + left. auto.
      + right. exists s. auto.
    - intros [[Ho Hin] | (s & Ho & Hs & Hin)].
      + exists (RString ""). split; [apply in_map, Hin|].
        apply string_rule_matches. left.
        destruct o; [discriminate | auto].
      + exists (RString s). split; [apply in_map, Hin|].
        apply string_rule_matches. right.
        destruct o; [injection Ho as ->; auto | discriminate]. }
  destruct (existsb _ _); simpl; eexists; (split; [reflexivity|]);
    simpl; rewrite <- Hex; split; auto; discriminate.
Qed.

Lemma string_allow_list_witness :
  exists rep,
    checkCustomComplianceForSingleSetting KBranch
      (mkVersion (Some "main") None 1 0 0 None None None
                 (Some (Settings.mk (oneOf [RString "main"; RString "dev"])
                                    optional optional optional optional)))
    = Ok rep
    /\ Report.success rep = true.
Proof.
  destruct (string_allow_list KBranch
              (mkVersion (Some "main") None 1 0 0 None None None
                 (Some (Settings.mk (oneOf [RString "main"; RString "dev"])
                                    optional optional optional optional)))
              (Settings.mk (oneOf [RString "main"; RString "dev"])
                           optional optional optional optional)
              ["main"; "dev"])
    as (rep & Hr & Hs); [discriminate | reflexivity | reflexivity |].
  exists rep. split; [exact Hr|]. apply Hs. right.
  exists "main". repeat split; [discriminate | left; reflexivity].
Defined.

(** X14 (allow-lists of numbers): for Hotfix an allow-list of integers
    passes exactly when the hotfix is present and listed; an absent hotfix
    never passes, and 0 passes only if 0 is listed. *)
Theorem hotfix_allow_list (v : SemanticVersion) (cs : Settings.t)
        (literals : list Z) :
  ComplianceSettings v = Some cs ->
  Settings.Hotfix cs = oneOf (map (fun z => RNumber (Int z)) literals) ->
  exists rep,
    checkCustomComplianceForSingleSetting KHotfix v = Ok rep
    /\ (Report.success rep = true
        <-> exists h, Hotfix v = Some h /\ In h literals).
Proof.
  intros Hcs Hset. unfold checkCustomComplianceForSingleSetting.
  rewrite Hcs. cbn [setting_of field_value]. rewrite Hset.
  assert (Hex : existsb (rule_matches (js_of_Z (Hotfix v)))
                        (map (fun z => RNumber (Int z)) literals) = true
                <-> exists h, Hotfix v = Some h /\ In h literals).
  { rewrite existsb_exists. split.
    - intros (r & Hin & Hm). apply in_map_iff in Hin as (z & <- & Hin).
      destruct (Hotfix v) as [h|]; simpl in Hm; [|discriminate].
      apply Z.eqb_eq in Hm as ->. exists h. auto.
    - intros (h & -> & Hin). exists (RNumber (Int h)).
      split; [apply (in_map (fun z => RNumber (Int z))), Hin|].
      simpl. apply Z.eqb_refl. }
  destruct (existsb _ _); simpl; eexists; (split; [reflexivity|]);
    simpl; rewrite <- Hex; split; auto; discriminate.
Qed.

Lemma hotfix_allow_list_witness :
  exists rep,
    checkCustomComplianceForSingleSetting KHotfix
      (mkVersion None None 1 0 0 (Some 0) None None
                 (Some (Settings.mk optional optional
                          (oneOf [RNumber (Int 0); RNumber (Int 1)])
                          optional optional)))
    = Ok rep
    /\ Report.success rep = true.
Proof.
  destruct (hotfix_allow_list
              (mkVersion None None 1 0 0 (Some 0) None None
                 (Some (Settings.mk optional optional
                          (oneOf [RNumber (Int 0); RNumber (Int 1)])
                          optional optional)))
              (Settings.mk optional optional
                 (oneOf [RNumber (Int 0); RNumber (Int 1)]) optional optional)
              [0; 1] eq_refl eq_refl)
    as (rep & Hr & Hs).
  exists rep. split; [exact Hr|]. apply Hs.
  exists 0. split; [reflexivity | left; reflexivity].
Defined.

(** X15 (non-strict messages): in non-strict mode every message of the
    standard check is an error, so the check succeeds exactly when it
    returns no message at all. *)
Theorem nonstrict_success_iff_no_message (v : SemanticVersion) :
  (forall m, In m (Outcome.messages (checkStandardCompliance v false)) ->
             type (body m) = error)
  /\ (isStandardCompliant v false = true
      <-> Outcome.messages (checkStandardCompliance v false) = []).
Proof.
  assert (Hall : forall m,
             In m (Outcome.messages (checkStandardCompliance v false)) ->
             type (body m) = error).
  { intros m Hin. unfold checkStandardCompliance in Hin.
    cbn [Outcome.messages andb] in Hin.
    apply in_flat_map in Hin as (entry & He & Hm).
    unfold unless_valid in He.
    repeat (destruct He as [<- | He];
            [destruct (is_success _); cbn in Hm;
             [contradiction | destruct Hm as [<- | []]; reflexivity]|]).
    destruct He. }
  split; [exact Hall|]. split.
  - intros H. apply standard_compliant_inv in H.
    destruct H as (Hb & Hl & Hma & Hmi & Hpa & Hh & Hpr & Hbu).
    unfold checkStandardCompliance, unless_valid. cbn [Outcome.messages andb].
    rewrite Hb, Hl, Hma, Hmi, Hpa, Hh, Hpr, Hbu. reflexivity.
  - intros H. unfold isStandardCompliant.
    apply (proj2 (success_iff_no_error v false)).
    rewrite H. intros m [].
Qed.

(* ================================================================= *)
(** ** Rendering *)

(** X16 (branch and label render alike): a branch and a label are both
    written as the text followed by one space, and the label schema takes
    any text, so for every non-empty [s] the version with branch [s] and
    the version with label [s] are both constructed, differ, and have the
    same rendering. *)
Theorem branch_and_label_render_alike (static : option Settings.t)
        (s : string) (ma mi pa : Z) :
  s <> "" ->
  0 <= ma <= MAX_SAFE_INTEGER ->
  0 <= mi <= MAX_SAFE_INTEGER ->
  0 <= pa <= MAX_SAFE_INTEGER ->
  exists v1 v2,
    new_SemanticVersion static (branch_fields s ma mi pa) = Ok v1
    /\ new_SemanticVersion static (label_fields s ma mi pa) = Ok v2
    /\ Branch v1 = Some s /\ Label v1 = None
    /\ Branch v2 = None /\ Label v2 = Some s
    /\ toString v1 = toString v2.
Proof.
  intros Hs Hma Hmi Hpa.
  exists (mkVersion (Some s) None ma mi pa None None None static),
         (mkVersion None (Some s) ma mi pa None None None static).
  repeat split.
  - unfold branch_fields. rewrite new_SemanticVersion_object.
    rewrite (SemanticVersionSchema_success_intro _ (Some s) None ma mi pa
               None None None None);
      try reflexivity; try (apply MajorVersionSchema_in_range; assumption).
    cbn [get_prop lookup String.eqb Ascii.eqb Bool.eqb BranchSchema].
    destruct (String.eqb_spec s ""); [contradiction | reflexivity].
  - unfold label_fields. rewrite new_SemanticVersion_object.
    rewrite (SemanticVersionSchema_success_intro _ None (Some s) ma mi pa
               None None None None);
      try reflexivity; try (apply MajorVersionSchema_in_range; assumption).
    apply (LabelSchema_of_field (Some s)).
Qed.

Lemma branch_and_label_render_alike_witness :
  exists v1 v2,
    new_SemanticVersion None (branch_fields "v" 1 2 3) = Ok v1
    /\ new_SemanticVersion None (label_fields "v" 1 2 3) = Ok v2
    /\ toString v1 = "v 1.2.3" /\ toString v2 = "v 1.2.3".
Proof.
  destruct (branch_and_label_render_alike None "v" 1 2 3)
    as (v1 & v2 & H1 & H2 & _ & _ & _ & _ & Hr);
    try (vm_compute; split; discriminate); [discriminate|].
  exists v1, v2. split; [exact H1|]. split; [exact H2|].
  assert (toString v2 = "v 1.2.3").
  { vm_compute in H2. injection H2 as <-. reflexivity. }
  split; congruence.
Defined.

(* ================================================================= *)
(** ** [incrementMajor] *)

(** X17 ([incrementMajor]): on a version whose major is a safe
    non-negative integer, [incrementMajor] returns major+1.0.0 without
    branch, label, hotfix, prerelease and build, carrying the static
    default settings of the moment rather than those of the version; at the
    largest safe integer it throws, because major+1 is rejected as too
    big. *)
Theorem incrementMajor_result (static : option Settings.t)
        (this : SemanticVersion) :
  0 <= Major this <= MAX_SAFE_INTEGER ->
  incrementMajor static this
  = if Major this <? MAX_SAFE_INTEGER
    then Ok (mkVersion None None (Major this + 1) 0 0 None None None static)
    else Throw (ValidationError [mkIssue ["major"] too_big]).
Proof.
  intros H. destruct (Z.ltb_spec (Major this) MAX_SAFE_INTEGER) as [Hlt | Hge].
  - apply incrementMajor_resets. lia.
  - assert (Major this = MAX_SAFE_INTEGER) as E by lia.
    unfold incrementMajor, spread_with. rewrite E.
    destruct this; reflexivity.
Qed.

Lemma incrementMajor_result_witness :
  incrementMajor (Some governed_settings) release_version
  = Ok (mkVersion None None 3 0 0 None None None (Some governed_settings)).
Proof.
  apply (incrementMajor_result (Some governed_settings) release_version).
  vm_compute. split; discriminate.
Defined.

(* ================================================================= *)
(** ** Precedence without a collation *)

Lemma option_string_eqb_refl (o : option string) :
  option_string_eqb o o = true.
Proof. destruct o; simpl; [apply String.eqb_refl | reflexivity]. Qed.

Ltac numeric_cases :=
  repeat match goal with
         | |- context [Z.eqb ?x ?y] => destruct (Z.eqb_spec x y)
         | |- context [option_Z_eqb ?x ?y] =>
             let E := fresh "E" in
             destruct (option_Z_eqb_spec x y) as [E | E];
             [apply (f_equal or_zero) in E|]
         end;
  cbn [negb].

(** X18 (same branch, any locale): between versions with the same branch
    (such as versions without one) [localeCompare] is never consulted: the
    result is the same for every collation, it is antisymmetric and
    transitive with no assumption on the collation, and it is 0 exactly
    when major, minor, patch and hotfix (absent read as 0) agree. *)
Theorem compare_same_branch (lc lc' : string -> string -> Z)
        (a b c : SemanticVersion) :
  Branch a = Branch b -> Branch b = Branch c ->
  comparePrecedence lc a b = comparePrecedence lc' a b
  /\ Z.sgn (comparePrecedence lc a b) = - Z.sgn (comparePrecedence lc b a)
  /\ (comparePrecedence lc a b <= 0 -> comparePrecedence lc b c <= 0 ->
      comparePrecedence lc a c <= 0)
  /\ (comparePrecedence lc a b = 0
      <-> Major a = Major b /\ Minor a = Minor b /\ Patch a = Patch b
          /\ or_zero (Hotfix a) = or_zero (Hotfix b)).
Proof.
  intros Hab Hbc. unfold comparePrecedence.
  rewrite Hab, Hbc, !option_string_eqb_refl. cbn [negb].
  split; [reflexivity|]. split; [|split].
  - numeric_cases; lia.
  - numeric_cases; lia.
  - numeric_cases; split; intros H; lia.
Qed.

Lemma compare_same_branch_witness :
  comparePrecedence codeUnitCompare plain_version prerelease_version
  = comparePrecedence (fun _ _ => 0) plain_version prerelease_version.
Proof.
  apply (compare_same_branch codeUnitCompare (fun _ _ => 0)
                             plain_version prerelease_version plain_version);
    reflexivity.
Defined.

(** X19 (hotfix 0 under patterns): a regular expression of an allow-list is
    tested against the empty string when the field is falsy, so with an
    allow-list made of regular expressions only a hotfix of 0 gets exactly
    the verdict of an absent hotfix. *)
Theorem hotfix_zero_tested_as_absent (v : SemanticVersion) (cs : Settings.t)
        (patterns : list RegExp.t) :
  ComplianceSettings v = Some cs ->
  Settings.Hotfix cs = oneOf (map RRegExp patterns) ->
  Hotfix v = Some 0 ->
  checkCustomComplianceForSingleSetting KHotfix v
  = checkCustomComplianceForSingleSetting KHotfix
      (mkVersion (_branch v) (_label v) (_major v) (_minor v) (_patch v)
                 None (_prerelease v) (_build v) (_complianceSettings v)).
Proof.
  intros Hcs Hset Hh. unfold checkCustomComplianceForSingleSetting.
  unfold ComplianceSettings in *. cbn [_complianceSettings].
  rewrite Hcs. cbn [setting_of field_value]. rewrite Hset.
  unfold Hotfix in *. cbn [_hotfix]. rewrite Hh.
  assert (E : existsb (rule_matches (js_of_Z (Some 0))) (map RRegExp patterns)
              = existsb (rule_matches (js_of_Z None)) (map RRegExp patterns)).
  { clear. induction patterns as [|re res IH]; [reflexivity|].
    cbn [map existsb]. rewrite IH. reflexivity. }
  rewrite E. reflexivity.
Qed.

Lemma hotfix_zero_tested_as_absent_witness :
  checkCustomComplianceForSingleSetting KHotfix
    (mkVersion None None 1 0 0 (Some 0) None None
       (Some (Settings.mk optional optional
                (oneOf [RRegExp alphaNumericRegex]) optional optional)))
  = Ok (Report.mk KHotfix false
          [mkMessage "Semantic Version Setting Hotfix does not match required format"
                     error]).
Proof.
  rewrite (hotfix_zero_tested_as_absent
             (mkVersion None None 1 0 0 (Some 0) None None
                (Some (Settings.mk optional optional
                         (oneOf [RRegExp alphaNumericRegex]) optional optional)))
             (Settings.mk optional optional
                (oneOf [RRegExp alphaNumericRegex]) optional optional)
             [alphaNumericRegex] eq_refl eq_refl eq_refl).
  vm_compute. reflexivity.
Defined.
